(** * Benchmark export: a shallow embedding of [export_bench_to_csv.py]

    The development follows [bench_analysis/export_bench_to_csv.py] and, in
    the modules [ParseBenchResults] and [Report], the discoverer, formatters,
    Markdown table and CSV export of [scripts/parse_bench_results.py],
    function by function.  Python values are modelled as the interpreter has
    them:

    - [int] is [Z], [float] is the kernel's binary64 [float];
    - [str] is [string], restricted to ASCII characters;
    - [Set[str]] is [gset string];
    - a raised exception is the [Raised] case of [outcome], and a
      [try]/[except Exception] block is a [match] on it;
    - the criterion directory is a tree of [node]s;
    - the destination CSV is its content piece by piece, terminated lines
      given by their cells and text that no terminator ends, and reading it
      is a function of that content. *)

From Stdlib Require Import ZArith Floats Ascii.
From stdpp Require Import gmap strings list pretty sorting.

#[local] Set Warnings "-register-all,-clear-no-such-hyp".

Local Open Scope string_scope.

(** ** Exceptions *)

Inductive exn : Set :=
| TypeError
| ValueError
| OverflowError
| ZeroDivisionError
| AttributeError
| OSError
| JSONDecodeError
| NotADirectoryError
| CsvError.

Inductive outcome (A : Type) : Type :=
| Returned (a : A)
| Raised (e : exn).

Arguments Returned {A} a.
Arguments Raised {A} e.

#[global] Instance outcome_ret : MRet outcome := fun A a => Returned a.
#[global] Instance outcome_bind : MBind outcome := fun A B k m =>
  match m with
  | Returned a => k a
  | Raised e => Raised e
  end.
#[global] Instance outcome_fmap : FMap outcome := fun A B f m =>
  match m with
  | Returned a => Returned (f a)
  | Raised e => Raised e
  end.

Definition returns {A} (m : outcome A) : bool :=
  match m with Returned _ => true | Raised _ => false end.

(** ** Strings *)

Definition slash : ascii := "/"%char.

Definition is_ascii_digit (c : ascii) : bool :=
  let n := Ascii.N_of_ascii c in (48 <=? n)%N && (n <=? 57)%N.

Definition digit_value (c : ascii) : Z :=
  Z.of_N (Ascii.N_of_ascii c) - 48.

Fixpoint all_digits (s : string) : bool :=
  match s with
  | "" => true
  | String c s' => is_ascii_digit c && all_digits s'
  end.

(** [str.isdigit()] on ASCII text: at least one character, and every
    character a digit.  The digits of other scripts, which the interpreter
    takes as well, are not characters of the model. *)
Definition isdigit (s : string) : bool :=
  match s with
  | "" => false
  | _ => all_digits s
  end.

Fixpoint decimal_value (acc : Z) (s : string) : Z :=
  match s with
  | "" => acc
  | String c s' => decimal_value (10 * acc + digit_value c) s'
  end.

(** The most digits [int] converts: the interpreter's default limit. *)
Definition max_str_digits : nat := 4300.

(** [int(s)] in base ten.  The caller guards it with [isdigit], so it only
    ever sees digit strings; on anything else the model raises
    [ValueError].  A numeral of more than [max_str_digits] digits, leading
    zeros counted, is refused with [ValueError] as well. *)
Definition int (s : string) : outcome Z :=
  if isdigit s then
    if (String.length s <=? max_str_digits)%nat then Returned (decimal_value 0 s)
    else Raised ValueError
  else Raised ValueError.

(** [s.split(sep)] for a one-character separator. *)
Fixpoint split (sep : ascii) (s : string) : list string :=
  match s with
  | "" => [""]
  | String c s' =>
      if Ascii.eqb c sep then "" :: split sep s'
      else match split sep s' with
           | [] => [String c ""]
           | p :: ps => String c p :: ps
           end
  end.

(** [sub in s]. *)
Fixpoint contains (sub s : string) : bool :=
  String.prefix sub s ||
  match s with
  | "" => false
  | String _ s' => contains sub s'
  end.

Fixpoint zeros (n : nat) : string :=
  match n with
  | O => ""
  | S n' => String "0" (zeros n')
  end.

(** A natural number in decimal, left-padded with zeros to [width]. *)
Definition zfill (width : nat) (n : nat) : string :=
  let s := pretty n in zeros (width - String.length s) +:+ s.

(** ** Numbers *)

Inductive pynum : Set :=
| PInt (z : Z)
| PFloat (f : float).

Definition sf_of_Z (z : Z) : spec_float :=
  match z with
  | Z0 => S754_zero false
  | Zpos p => S754_finite false p 0
  | Zneg p => S754_finite true p 0
  end.

Definition sf_is_infinite (x : spec_float) : bool :=
  match x with S754_infinity _ => true | _ => false end.

(** [float(z)]: the nearest binary64 value, ties to even; [OverflowError]
    when it is out of range. *)
Definition float_of_int (z : Z) : outcome float :=
  let x := binary_normalize prec emax z 0 false in
  if sf_is_infinite x then Raised OverflowError else Returned (SF2Prim x).

(** [a / b] for two ints: the correctly rounded quotient. *)
Definition int_truediv (a b : Z) : outcome float :=
  if (b =? 0)%Z then Raised ZeroDivisionError
  else
    let q := SFdiv prec emax (sf_of_Z a) (sf_of_Z b) in
    if sf_is_infinite q then Raised OverflowError else Returned (SF2Prim q).

(** [a / b] for an int [a] and a number [b]. *)
Definition truediv (a : Z) (b : pynum) : outcome float :=
  match b with
  | PInt z => int_truediv a z
  | PFloat f =>
      x ← float_of_int a;
      if PrimFloat.eqb f 0 then Raised ZeroDivisionError
      else Returned (x / f)%float
  end.

(** [x == 0]. *)
Definition eq_zero (x : pynum) : bool :=
  match x with
  | PInt z => (z =? 0)%Z
  | PFloat f => PrimFloat.eqb f 0
  end.

(** [x > 0]. *)
Definition gt_zero (x : pynum) : bool :=
  match x with
  | PInt z => (0 <? z)%Z
  | PFloat f => PrimFloat.ltb 0 f
  end.

Definition is_finite (x : float) : bool :=
  match Prim2SF x with
  | S754_zero _ | S754_finite _ _ _ => true
  | _ => false
  end.

Definition round_half_even (num den : Z) : Z :=
  let q := (num / den)%Z in
  let r := (num mod den)%Z in
  match (2 * r ?= den)%Z with
  | Lt => q
  | Gt => (q + 1)%Z
  | Eq => if Z.even q then q else (q + 1)%Z
  end.

(** The value [m * 2^e] in hundredths, rounded half to even. *)
Definition hundredths (m : positive) (e : Z) : Z :=
  if (0 <=? e)%Z then (Z.pos m * 2 ^ e * 100)%Z
  else round_half_even (Z.pos m * 100) (2 ^ (- e)).

Definition digit_char (d : Z) : ascii :=
  Ascii.ascii_of_N (Z.to_N (48 + d)).

(** [k] hundredths printed with two decimals. *)
Definition fixed2 (negative : bool) (k : Z) : string :=
  (if negative then "-" else "") +:+ pretty (Z.to_N (k / 100)) +:+
  String "." (String (digit_char (k mod 100 / 10)) (String (digit_char (k mod 10)) "")).

(** [f"{x:.2f}"]. *)
Definition format_2f (x : float) : string :=
  match Prim2SF x with
  | S754_nan => "nan"
  | S754_infinity s => if s then "-inf" else "inf"
  | S754_zero s => fixed2 s 0
  | S754_finite s m e => fixed2 s (hundredths m e)
  end.

(** [round(x, 2)] for a float: the double nearest to the two-decimal
    rendering of [x]. *)
Definition round2 (x : float) : float :=
  match Prim2SF x with
  | S754_finite s m e =>
      match hundredths m e with
      | Zpos k => SF2Prim (SFdiv prec emax (S754_finite s k 0) (S754_finite false 100 0))
      | _ => SF2Prim (S754_zero s)
      end
  | _ => x
  end.

(** [round(x, 2)]: an int is returned unchanged. *)
Definition round_2 (x : pynum) : pynum :=
  match x with
  | PInt z => PInt z
  | PFloat f => PFloat (round2 f)
  end.

(** ** Throughput calculator *)

(** [export_bench_to_csv.format_throughput]: operations per second and its
    display string. *)
Definition format_throughput (ns : pynum) (n : Z) : outcome (float * string) :=
  if eq_zero ns then Returned (0%float, "N/A")
  else
    ops_per_sec ← truediv (n * 1000000000) ns;
    let pretty :=
      if PrimFloat.leb 1000000000 ops_per_sec then
        format_2f (ops_per_sec / 1000000000) +:+ " Gops/s"
      else if PrimFloat.leb 1000000 ops_per_sec then
        format_2f (ops_per_sec / 1000000) +:+ " Mops/s"
      else if PrimFloat.leb 1000 ops_per_sec then
        format_2f (ops_per_sec / 1000) +:+ " Kops/s"
      else
        format_2f ops_per_sec +:+ " ops/s" in
    Returned (ops_per_sec, pretty).

Module ParseBenchResults.

(** [parse_bench_results.format_throughput]: the display string alone. *)
Definition format_throughput (ns : pynum) (n : Z) : outcome string :=
  if eq_zero ns then Returned "N/A"
  else
    ops_per_sec ← truediv (n * 1000000000) ns;
    if PrimFloat.leb 1000000000 ops_per_sec then
      Returned (format_2f (ops_per_sec / 1000000000) +:+ " Gops/s")
    else if PrimFloat.leb 1000000 ops_per_sec then
      Returned (format_2f (ops_per_sec / 1000000) +:+ " Mops/s")
    else if PrimFloat.leb 1000 ops_per_sec then
      Returned (format_2f (ops_per_sec / 1000) +:+ " Kops/s")
    else
      Returned (format_2f ops_per_sec +:+ " ops/s").

End ParseBenchResults.

(** The display rule in the words of the specification: the magnitude of
    the value picks a divisor and a unit. *)
Inductive magnitude : Set := Giga | Mega | Kilo | Unit.

Definition magnitude_of (v : float) : magnitude :=
  if PrimFloat.leb 1000000000 v then Giga
  else if PrimFloat.leb 1000000 v then Mega
  else if PrimFloat.leb 1000 v then Kilo
  else Unit.

Definition divisor (m : magnitude) : float :=
  match m with
  | Giga => 1000000000
  | Mega => 1000000
  | Kilo => 1000
  | Unit => 1
  end.

Definition suffix (m : magnitude) : string :=
  match m with
  | Giga => "Gops/s"
  | Mega => "Mops/s"
  | Kilo => "Kops/s"
  | Unit => "ops/s"
  end.

(** The number shown: the value over the divisor of its magnitude (the
    value itself below one thousand). *)
Definition displayed (v : float) : float :=
  match magnitude_of v with
  | Unit => v
  | m => (v / divisor m)%float
  end.

Definition display (v : float) : string :=
  format_2f (displayed v) +:+ " " +:+ suffix (magnitude_of v).

(** A number printed with exactly two decimals: an optional sign, at least
    one digit, a point, two digits. *)
Definition two_decimals (s : string) : bool :=
  let body :=
    match s with
    | String c s' => if Ascii.eqb c "-" then s' else s
    | "" => s
    end in
  match split "." body with
  | [ip; fp] => isdigit ip && all_digits fp && (String.length fp =? 2)%nat
  | _ => false
  end.

(** A display string as the specification describes it: a two-decimal
    number, a space, and one of the four units. *)
Definition well_displayed (s : string) : bool :=
  match split " " s with
  | [num; unit] =>
      two_decimals num &&
      bool_decide (unit ∈ ["Gops/s"; "Mops/s"; "Kops/s"; "ops/s"])
  | _ => false
  end.

(** ** Estimates files *)

(** What [json.load] returns.  The members of a [JObject] are the items of
    the parsed [dict], one per key. *)
Inductive json : Type :=
| JNull
| JBool (b : bool)
| JNumber (x : pynum)
| JString (s : string)
| JArray (items : list json)
| JObject (members : list (string * json)).

Fixpoint assoc {A} (key : string) (l : list (string * A)) : option A :=
  match l with
  | [] => None
  | (k, v) :: l' => if String.eqb k key then Some v else assoc key l'
  end.

(** [d.get(key, default)]; only a [dict] has the method. *)
Definition get (key : string) (default : json) (d : json) : outcome json :=
  match d with
  | JObject members => Returned (from_option id default (assoc key members))
  | _ => Raised AttributeError
  end.

(** A JSON value used as a number: [bool] is a subtype of [int]; any other
    value makes arithmetic raise [TypeError]. *)
Definition as_number (v : json) : outcome pynum :=
  match v with
  | JNumber x => Returned x
  | JBool b => Returned (PInt (if b then 1 else 0))
  | _ => Raised TypeError
  end.

(** A local date and time, as [datetime.fromtimestamp] builds it. *)
Record datetime : Set := {
  year : nat;
  month : nat;
  day : nat;
  hour : nat;
  minute : nat;
  second : nat;
  microsecond : nat
}.

(** [d.strftime("%Y%m%d_%H%M%S")], for a year of four digits. *)
Definition strftime_run_id (d : datetime) : string :=
  zfill 4 (year d) +:+ zfill 2 (month d) +:+ zfill 2 (day d) +:+ "_" +:+
  zfill 2 (hour d) +:+ zfill 2 (minute d) +:+ zfill 2 (second d).

(** [d.isoformat()]: the microseconds appear only when not zero. *)
Definition isoformat (d : datetime) : string :=
  zfill 4 (year d) +:+ "-" +:+ zfill 2 (month d) +:+ "-" +:+ zfill 2 (day d) +:+
  "T" +:+ zfill 2 (hour d) +:+ ":" +:+ zfill 2 (minute d) +:+ ":" +:+
  zfill 2 (second d) +:+
  (if (microsecond d =? 0)%nat then "" else "." +:+ zfill 6 (microsecond d)).

(** The criterion tree.  [mtime] is the modification time in local time;
    [content] is what [json.load] makes of a file, [None] when the file
    cannot be opened or is not JSON.  A directory lists its entries in
    [iterdir] order. *)
Inductive node : Type :=
| File (mtime : datetime) (content : option json)
| Dir (mtime : datetime) (entries : list (string * node)).

Definition getmtime (n : node) : datetime :=
  match n with
  | File t _ => t
  | Dir t _ => t
  end.

Definition is_dir (n : node) : bool :=
  match n with
  | Dir _ _ => true
  | File _ _ => false
  end.

(** The entries of a directory.  The loops call it after [is_dir]; on a
    file, where the interpreter raises, see [parse_benchmark_results]. *)
Definition iterdir (n : node) : list (string * node) :=
  match n with
  | Dir _ entries => entries
  | File _ _ => []
  end.

(** [n / name], when it exists. *)
Definition child (n : node) (name : string) : option node :=
  assoc name (iterdir n).

(** [d / source / "estimates.json"]: [None] when the path does not exist. *)
Definition estimates_path (d : node) (source : string) : option node :=
  s ← child d source; child s "estimates.json".

(** [open] followed by [json.load]. *)
Definition load (f : node) : outcome json :=
  match f with
  | Dir _ _ => Raised OSError
  | File _ None => Raised JSONDecodeError
  | File _ (Some data) => Returned data
  end.

Definition get_run_id_from_file (file_path : node) : string :=
  let mtime := getmtime file_path in
  strftime_run_id mtime.

(** ** Records *)

Module Result.

(** One normalized observation: the [dict] that [process_estimates_file]
    builds. *)
Record t : Set := {
  run_id : string;
  benchmark : string;
  test_name : string;
  operation : string;
  size : string;
  median_ns : pynum;
  mean_ns : pynum;
  throughput_ops_sec : float;
  throughput_pretty : string;
  timestamp : string;
  tag : string
}.

End Result.

(** The operation count: [int(size) if size.isdigit() else 1], with any
    exception giving 1. *)
Definition size_n (size : string) : Z :=
  match (if isdigit size then int size else Returned 1%Z) with
  | Returned n => n
  | Raised _ => 1%Z
  end.

(** The body of the [try] block of [process_estimates_file]. *)
Definition read_estimates
    (estimates_file : node) (bench_name test_name source tag : string)
  : outcome Result.t :=
  data ← load estimates_file;
  let run_id := get_run_id_from_file estimates_file in
  let mtime := getmtime estimates_file in
  let timestamp := isoformat mtime in
  let parts := split slash test_name in
  let operation := match parts with p :: _ => p | [] => test_name end in
  let size := match parts with _ :: q :: _ => q | _ => "N/A" end in
  median ← get "median" (JObject []) data;
  median_ns ← get "point_estimate" (JNumber (PInt 0)) median;
  mean ← get "mean" (JObject []) data;
  mean_ns ← get "point_estimate" (JNumber (PInt 0)) mean;
  let size_n := size_n size in
  throughput ← (ns ← as_number median_ns; format_throughput ns size_n);
  let '(throughput_ops_sec, throughput_pretty) := throughput in
  median_ns ← as_number median_ns;
  mean_ns ← as_number mean_ns;
  Returned {|
    Result.run_id := run_id;
    Result.benchmark := bench_name;
    Result.test_name := test_name;
    Result.operation := operation;
    Result.size := size;
    Result.median_ns := round_2 median_ns;
    Result.mean_ns := round_2 mean_ns;
    Result.throughput_ops_sec := round2 throughput_ops_sec;
    Result.throughput_pretty := throughput_pretty;
    Result.timestamp := timestamp;
    Result.tag := tag
  |}.

(** [process_estimates_file]: no record when the path does not exist, and
    none when anything in the [try] block raises. *)
Definition process_estimates_file
    (estimates_file : option node) (bench_name test_name source tag : string)
  : list Result.t :=
  match estimates_file with
  | None => []
  | Some f =>
      match read_estimates f bench_name test_name source tag with
      | Returned r => [r]
      | Raised _ => []
      end
  end.

(** ** Result discoverer *)

(** The parameter loop of [parse_benchmark_results] for one test
    directory. *)
Definition param_results
    (bench_name source tag test_dir_name : string) (param : string * node)
  : list Result.t :=
  let '(param_name, param_dir) := param in
  if negb (is_dir param_dir) then []
  else
    let estimates_file := estimates_path param_dir source in
    if bool_decide (is_Some estimates_file) then
      let full_test_name := test_dir_name +:+ "/" +:+ param_name in
      process_estimates_file estimates_file bench_name full_test_name source tag
    else [].

(** The body of the loop over test directories. *)
Definition test_results
    (bench_name source tag : string) (test : string * node) : list Result.t :=
  let '(test_dir_name, test_dir) := test in
  if negb (is_dir test_dir) then []
  else
    let estimates_file := estimates_path test_dir source in
    if bool_decide (is_Some estimates_file) then
      process_estimates_file estimates_file bench_name test_dir_name source tag
    else
      flat_map (param_results bench_name source tag test_dir_name)
               (iterdir test_dir).

(** The body of the loop over benchmark directories.  A filter that is
    [None] or empty selects everything. *)
Definition benchmark_results
    (source : string) (bench_filter : option string) (tag : string)
    (bench : string * node) : list Result.t :=
  let '(name, benchmark_dir) := bench in
  if negb (is_dir benchmark_dir) then []
  else if match bench_filter with
          | Some f => negb (String.eqb f "") && negb (contains f name)
          | None => false
          end then []
  else
    let bench_name := name in
    flat_map (test_results bench_name source tag) (iterdir benchmark_dir).

(** [parse_benchmark_results]; [criterion_dir] is [None] when the path does
    not exist. *)
Definition parse_benchmark_results
    (criterion_dir : option node) (source : string)
    (bench_filter : option string) (tag : string)
  : outcome (list Result.t) :=
  match criterion_dir with
  | None => Returned []
  | Some (File _ _) => Raised NotADirectoryError
  | Some (Dir _ entries) =>
      Returned (flat_map (benchmark_results source bench_filter tag) entries)
  end.

(** ** Dedup/export sink *)

(** The content of the destination, piece by piece in file order.  [Row]
    is a complete record: a line that [csv] reads up to its line
    terminator, given by the cells it is split into or written from.
    [Open] is text, not empty, after the last complete record, as a file
    written by other means may have at its end (a last line without
    terminator, a quoted field that is not closed): whatever is appended
    later continues it.  [Unreadable] marks a place where reading raises
    (undecodable bytes).  A file of no pieces has size zero.  A path is
    [None] when it does not exist. *)
Inductive line : Set :=
| Row (cells : list string)
| Open (text : string)
| Unreadable.

(** A value of a row [dict]. *)
Inductive value : Set :=
| VStr (s : string)
| VNum (x : pynum).

(** The column order. *)
Definition fieldnames : list string :=
  [ "run_id"; "benchmark"; "test_name"; "operation"; "size";
    "median_ns"; "mean_ns"; "throughput_ops_sec"; "throughput_pretty";
    "timestamp"; "tag" ].

(** The record as the [dict] its literal builds. *)
Definition to_dict (r : Result.t) : list (string * value) :=
  [ ("run_id", VStr (Result.run_id r));
    ("benchmark", VStr (Result.benchmark r));
    ("test_name", VStr (Result.test_name r));
    ("operation", VStr (Result.operation r));
    ("size", VStr (Result.size r));
    ("median_ns", VNum (Result.median_ns r));
    ("mean_ns", VNum (Result.mean_ns r));
    ("throughput_ops_sec", VNum (PFloat (Result.throughput_ops_sec r)));
    ("throughput_pretty", VStr (Result.throughput_pretty r));
    ("timestamp", VStr (Result.timestamp r));
    ("tag", VStr (Result.tag r)) ].

(** The identity key, [f"{result['run_id']}:{result['test_name']}"]. *)
Definition result_key (r : Result.t) : string :=
  Result.run_id r +:+ ":" +:+ Result.test_name r.

(** A row as [csv.DictReader] returns it: the header zipped with the
    cells, a missing cell being [None]; a later duplicate column wins. *)
Definition dict_row (header cells : list string) : list (string * option string) :=
  zip header (map Some cells ++ replicate (length header - length cells) None)%list.

Fixpoint last_assoc {A} (key : string) (l : list (string * A)) (found : option A)
  : option A :=
  match l with
  | [] => found
  | (k, v) :: l' => last_assoc key l' (if String.eqb k key then Some v else found)
  end.

(** [f"{row.get(key, '')}"]: the default for an absent column, and the
    text of [None] for a missing cell. *)
Definition row_get (key : string) (row : list (string * option string)) : string :=
  match last_assoc key row None with
  | None => ""
  | Some None => "None"
  | Some (Some s) => s
  end.

Definition row_key (header cells : list string) : string :=
  let row := dict_row header cells in
  row_get "run_id" row +:+ ":" +:+ row_get "test_name" row.

(** The field size limit of the [csv] module: a longer cell is not read. *)
Definition field_size_limit : N := 131072.

Definition within_limit (cells : list string) : bool :=
  forallb (λ cell, (N.of_nat (String.length cell) <=? field_size_limit)%N) cells.


Section Reader.

(** What [csv.reader] makes of a text without terminator and of the lines
    appended after it, the first of which continues the text.  The model
    does not split text into cells, so this reading is a parameter. *)
Variable tail_rows : string → list line → list (outcome (list string)).

(** What [csv.reader] yields from a content, item by item: a row, or the
    exception raised in its place, after which nothing more is read.  A row
    with a cell over the size limit raises [csv.Error]. *)
Fixpoint csv_reader (content : list line) : list (outcome (list string)) :=
  match content with
  | [] => []
  | Row cells :: rest =>
      if within_limit cells then Returned cells :: csv_reader rest
      else [Raised CsvError]
  | Open text :: rest => tail_rows text rest
  | Unreadable :: _ => [Raised OSError]
  end.

(** The loop of [load_existing_run_ids] over the rows after the header:
    the set as it stands when the loop ends, and how it ended.  The reader
    passes over empty rows. *)
Fixpoint read_rows (header : list string) (rows : list (outcome (list string)))
    (existing : gset string) : gset string * outcome () :=
  match rows with
  | [] => (existing, Returned ())
  | Raised e :: _ => (existing, Raised e)
  | Returned [] :: rest => read_rows header rest existing
  | Returned cells :: rest =>
      read_rows header rest ({[row_key header cells]} ∪ existing)
  end.



End Reader.

(** The state of the filtering loop of [export_to_csv]: the records kept,
    the duplicates counted, and the key set as mutated so far. *)
Record filtering : Type := {
  new_results : list Result.t;
  skipped : nat;
  seen : gset string
}.

Definition filter_step (st : filtering) (result : Result.t) : filtering :=
  let key := result_key result in
  if bool_decide (key ∈ seen st) then
    {| new_results := new_results st;
       skipped := S (skipped st);
       seen := seen st |}
  else
    {| new_results := (new_results st ++ [result])%list;
       skipped := skipped st;
       seen := {[key]} ∪ seen st |}.

Definition filter_duplicates (results : list Result.t) (existing_ids : gset string)
  : filtering :=
  fold_left filter_step results
    {| new_results := []; skipped := 0; seen := existing_ids |}.

(** What a call of [export_to_csv] leaves behind: its return value, the
    content of the destination, the caller's key set, and the messages
    printed.  The lines written follow the old content; after [Open] text
    the first of them continues that text. *)
Inductive message : Set :=
| NoNewResultsToExport
| NoNewResultsFound (skipped : nat)
| Exported (count : nat)
| SkippedDuplicates (skipped : nat).

Record export : Type := {
  returned : nat;
  destination : option (list line);
  known_ids : gset string;
  printed : list message
}.

Section Sink.

(** [str(x)] for a float, the interpreter's shortest representation. *)
Variable float_repr : float → string.

(** The reading of unterminated text, see [csv_reader]. *)
Variable tail_rows : string → list line → list (outcome (list string)).

(** The text [csv.writer] puts in a cell. *)
Definition str (v : value) : string :=
  match v with
  | VStr s => s
  | VNum (PInt z) => pretty z
  | VNum (PFloat f) => float_repr f
  end.

(** [DictWriter]: the cells of a row, by [fieldnames]. *)
Definition dict_to_list (rowdict : list (string * value)) : list string :=
  map (λ key, from_option str "" (assoc key rowdict)) fieldnames.

Definition writerows (rows : list Result.t) : list line :=
  map (λ r, Row (dict_to_list (to_dict r))) rows.

Definition export_to_csv
    (results : list Result.t) (csv_path : option (list line))
    (existing_ids : gset string) : export :=
  match results with
  | [] =>
      {| returned := 0; destination := csv_path; known_ids := existing_ids;
         printed := [NoNewResultsToExport] |}
  | _ =>
      let st := filter_duplicates results existing_ids in
      match new_results st with
      | [] =>
          {| returned := 0; destination := csv_path; known_ids := seen st;
             printed := [NoNewResultsFound (skipped st)] |}
      | _ =>
          let file_exists :=
            match csv_path with
            | Some (_ :: _) => true
            | _ => false
            end in
          let header := if file_exists then [] else [Row fieldnames] in
          {| returned := length (new_results st);
             destination :=
               Some (default [] csv_path ++ header ++ writerows (new_results st))%list;
             known_ids := seen st;
             printed :=
               Exported (length (new_results st)) ::
               (if (0 <? skipped st)%nat then [SkippedDuplicates (skipped st)]
                else []) |}
      end
  end.



End Sink.

(** ** Vocabulary of the statements *)

(** [c] does not occur in [s]. *)
Fixpoint no_char (c : ascii) (s : string) : bool :=
  match s with
  | "" => true
  | String c' s' => negb (Ascii.eqb c' c) && no_char c s'
  end.

(** The text before the first slash (all of it when there is none). *)
Fixpoint segment (s : string) : string :=
  match s with
  | "" => ""
  | String c s' => if Ascii.eqb c slash then "" else String c (segment s')
  end.

(** The text after the first slash, when there is one. *)
Fixpoint after_slash (s : string) : option string :=
  match s with
  | "" => None
  | String c s' => if Ascii.eqb c slash then Some s' else after_slash s'
  end.


(** The destination is missing or of size zero. *)
Definition absent_or_empty (csv_path : option (list line)) : bool :=
  match csv_path with
  | Some (_ :: _) => false
  | _ => true
  end.


(** Every record of a content is complete: it holds no open text. *)
Definition terminated (content : list line) : bool :=
  forallb (λ l, match l with Open _ => false | _ => true end) content.


(** The keys of a list of records. *)
Definition keys (results : list Result.t) : list string :=
  map result_key results.

(** The records the filtering loop keeps, by recursion on the input: a
    record is kept when its key is neither known nor that of a record
    before it. *)
Fixpoint fresh (known : gset string) (results : list Result.t) : list Result.t :=
  match results with
  | [] => []
  | r :: rs =>
      if bool_decide (result_key r ∈ known) then fresh known rs
      else r :: fresh ({[result_key r]} ∪ known) rs
  end.

(** The cells of a record, column by column. *)
Definition columns (float_repr : float → string) (r : Result.t) : list string :=
  [ Result.run_id r; Result.benchmark r; Result.test_name r;
    Result.operation r; Result.size r;
    str float_repr (VNum (Result.median_ns r));
    str float_repr (VNum (Result.mean_ns r));
    float_repr (Result.throughput_ops_sec r);
    Result.throughput_pretty r; Result.timestamp r; Result.tag r ].

(** ** Sample data *)

Definition noon : datetime :=
  {| year := 2024; month := 1; day := 1;
     hour := 12; minute := 0; second := 0; microsecond := 0 |}.

Definition estimates (median mean : pynum) : node :=
  File noon
    (Some (JObject [ ("median", JObject [("point_estimate", JNumber median)]);
                     ("mean", JObject [("point_estimate", JNumber mean)]) ])).

(** [source/estimates.json] under a directory. *)
Definition with_source (source : string) (f : node) : string * node :=
  (source, Dir noon [("estimates.json", f)]).

(** A parameterized test: [compare_get/insert/100/new/estimates.json]. *)
Definition criterion : node :=
  Dir noon
    [ ("compare_get",
       Dir noon
         [ ("insert",
            Dir noon [("100", Dir noon [with_source "new" (estimates (PInt 500) (PInt 520))])]) ]) ].

(** A test directory with an unparsable direct file and a parameter
    directory holding a good one. *)
Definition broken_direct : node :=
  Dir noon
    [ with_source "new" (File noon None);
      ("100", Dir noon [with_source "new" (estimates (PInt 500) (PInt 520))]) ].




(** [str] of the one float among the cells of the samples. *)
Definition sample_repr (x : float) : string := "200000000.0".

(** The record discovered in [criterion]. *)
Definition first_record : Result.t :=
  {| Result.run_id := "20240101_120000"; Result.benchmark := "compare_get";
     Result.test_name := "insert/100"; Result.operation := "insert";
     Result.size := "100"; Result.median_ns := PInt 500;
     Result.mean_ns := PInt 520; Result.throughput_ops_sec := 200000000;
     Result.throughput_pretty := "200.00 Mops/s";
     Result.timestamp := "2024-01-01T12:00:00"; Result.tag := "" |}.

Definition sample (run_id test_name tag : string) : Result.t :=
  {| Result.run_id := run_id; Result.benchmark := "compare_get";
     Result.test_name := test_name; Result.operation := "insert";
     Result.size := "100"; Result.median_ns := PInt 500;
     Result.mean_ns := PInt 520; Result.throughput_ops_sec := 200000000;
     Result.throughput_pretty := "200.00 Mops/s";
     Result.timestamp := "2024-01-01T12:00:00"; Result.tag := tag |}.

(** ** The report script

    [scripts/parse_bench_results.py]: its discoverer, its time formatter,
    the Markdown table and the CSV export.  Its [format_throughput] is
    [ParseBenchResults.format_throughput] above. *)

Module Entry.

(** The [dict] that [parse_criterion_results] builds.  [median_ns] and
    [mean_ns] are the JSON values the file holds, as they are. *)
Record t : Type := {
  benchmark : string;
  test : string;
  operation : string;
  size : string;
  median_ns : json;
  mean_ns : json;
  median_us : float;
  median_ms : float;
  timestamp : string;
  source : string
}.

End Entry.

Module Report.

(** [x / d] for a number [x] and an int [d]. *)
Definition div_int (x : pynum) (d : Z) : outcome float :=
  match x with
  | PInt z => int_truediv z d
  | PFloat f =>
      y ← float_of_int d;
      if PrimFloat.eqb y 0 then Raised ZeroDivisionError
      else Returned (f / y)%float
  end.

(** The body of the [try] block of [parse_criterion_results]. *)
Definition read_entry
    (estimates_file : node) (bench_name test_name source : string)
  : outcome Entry.t :=
  data ← load estimates_file;
  let mtime := getmtime estimates_file in
  let timestamp := isoformat mtime in
  let parts := split slash test_name in
  let operation := match parts with p :: _ => p | [] => test_name end in
  let size := match parts with _ :: q :: _ => q | _ => "N/A" end in
  median ← get "median" (JObject []) data;
  median_ns ← get "point_estimate" (JNumber (PInt 0)) median;
  mean ← get "mean" (JObject []) data;
  mean_ns ← get "point_estimate" (JNumber (PInt 0)) mean;
  ns ← as_number median_ns;
  median_us ← div_int ns 1000;
  median_ms ← div_int ns 1000000;
  Returned {|
    Entry.benchmark := bench_name;
    Entry.test := test_name;
    Entry.operation := operation;
    Entry.size := size;
    Entry.median_ns := median_ns;
    Entry.mean_ns := mean_ns;
    Entry.median_us := median_us;
    Entry.median_ms := median_ms;
    Entry.timestamp := timestamp;
    Entry.source := source
  |}.

(** The body of the loop over test directories: [base] is tried first,
    [new] only when [base/estimates.json] does not exist. *)
Definition test_entries (bench_name : string) (test : string * node)
  : list Entry.t :=
  let '(test_dir_name, test_dir) := test in
  if negb (is_dir test_dir) then []
  else
    let base := estimates_path test_dir "base" in
    let '(estimates_file, source) :=
      if bool_decide (is_Some base) then (base, "base")
      else (estimates_path test_dir "new", "new") in
    match estimates_file with
    | None => []
    | Some f =>
        match read_entry f bench_name test_dir_name source with
        | Returned e => [e]
        | Raised _ => []
        end
    end.



(** The units of [format_time]. *)
Inductive time_unit : Set := Nanoseconds | Microseconds | Milliseconds | Seconds.

(** The unit as printed; the micro sign is its two UTF-8 bytes. *)
Definition unit_text (u : time_unit) : string :=
  match u with
  | Nanoseconds => "ns"
  | Microseconds => String "194" (String "181" "s")
  | Milliseconds => "ms"
  | Seconds => "s"
  end.

(** [x < bound] for a number and an int bound that a float holds exactly. *)
Definition below (x : pynum) (bound : Z) (bound_float : float) : bool :=
  match x with
  | PInt z => (z <? bound)%Z
  | PFloat f => PrimFloat.ltb f bound_float
  end.

Definition format_time (ns : pynum) : outcome (pynum * time_unit) :=
  if below ns 1000 1000 then Returned (ns, Nanoseconds)
  else if below ns 1000000 1000000 then
    v ← div_int ns 1000; Returned (PFloat v, Microseconds)
  else if below ns 1000000000 1000000000 then
    v ← div_int ns 1000000; Returned (PFloat v, Milliseconds)
  else
    v ← div_int ns 1000000000; Returned (PFloat v, Seconds).

(** [f"{x:.2f}"] for a number: an int is converted to a float first. *)
Definition format_number_2f (x : pynum) : outcome string :=
  match x with
  | PInt z => f ← float_of_int z; Returned (format_2f f)
  | PFloat f => Returned (format_2f f)
  end.

(** [a < b] on strings, by character codes. *)
Definition str_lt (a b : string) : bool := negb (String.leb b a).

(** [sorted(l, key=...)]: stable, and decided by [<] on the keys alone. *)
Fixpoint insert_sorted {A} (lt : A → A → bool) (x : A) (l : list A) : list A :=
  match l with
  | [] => [x]
  | y :: l' => if lt y x then y :: insert_sorted lt x l' else x :: y :: l'
  end.

Definition sorted {A} (lt : A → A → bool) (l : list A) : list A :=
  foldr (insert_sorted lt) [] l.

(** [<] on the keys [(operation, size)] of two records. *)
Definition row_lt (a b : Entry.t) : bool :=
  str_lt (Entry.operation a) (Entry.operation b) ||
  (String.eqb (Entry.operation a) (Entry.operation b) &&
   str_lt (Entry.size a) (Entry.size b)).

(** [<] on the items of [by_benchmark]: the names are distinct, so the
    comparison never reaches the lists. *)
Definition group_lt (a b : string * list Entry.t) : bool := str_lt a.1 b.1.

(** [by_benchmark[key].append(r)] on a [defaultdict(list)], which keeps
    its keys in order of first insertion. *)
Fixpoint group_append (key : string) (r : Entry.t)
    (groups : list (string * list Entry.t)) : list (string * list Entry.t) :=
  match groups with
  | [] => [(key, [r])]
  | (k, l) :: groups' =>
      if String.eqb k key then (k, l ++ [r])%list :: groups'
      else (k, l) :: group_append key r groups'
  end.

Definition by_benchmark (results : list Entry.t) : list (string * list Entry.t) :=
  fold_left (λ groups r, group_append (Entry.benchmark r) r groups) results [].

Definition newline : string := String "010" "".

(** One table row; evaluation order as in the loop body.  A median that is
    not a number makes the first comparison raise [TypeError]. *)
Definition row_text (r : Entry.t) : outcome string :=
  ns ← as_number (Entry.median_ns r);
  time ← format_time ns;
  let '(time_val, unit) := time in
  let size_n := size_n (Entry.size r) in
  throughput ← ParseBenchResults.format_throughput ns size_n;
  time_text ← format_number_2f time_val;
  Returned ("| " +:+ Entry.operation r +:+ " | " +:+ Entry.size r +:+ " | " +:+
            time_text +:+ " " +:+ unit_text unit +:+ " | " +:+ throughput +:+ " |").

(** The sections of the table: the benchmarks in sorted order, each with
    its records sorted by key. *)
Definition sections (results : list Entry.t) : list (string * list Entry.t) :=
  map (λ g, (g.1, sorted row_lt g.2)) (sorted group_lt (by_benchmark results)).

Definition section_lines (section : string * list Entry.t) : outcome (list string) :=
  rows ← mapM row_text section.2;
  Returned ([ newline +:+ "## " +:+ section.1 +:+ newline;
              "| Operation | Size | Median Time | Throughput |";
              "|-----------|------|-------------|------------|" ] ++ rows)%list.

(** The list [markdown] that the function joins. *)
Definition markdown_lines (results : list Entry.t) : outcome (list string) :=
  blocks ← mapM section_lines (sections results);
  Returned (("# Benchmark Results" +:+ newline) :: concat blocks).

Fixpoint join (sep : string) (l : list string) : string :=
  match l with
  | [] => ""
  | [x] => x
  | x :: l' => x +:+ sep +:+ join sep l'
  end.

Definition generate_markdown_table (results : list Entry.t) : outcome string :=
  match results with
  | [] => Returned "No benchmark results found."
  | _ => lines ← markdown_lines results; Returned (join newline lines)
  end.

(** A row [dict] handed to [export_csv]: keys in insertion order. *)
Definition to_dict (cell : json → string) (e : Entry.t) : list (string * string) :=
  [ ("benchmark", Entry.benchmark e);
    ("test", Entry.test e);
    ("operation", Entry.operation e);
    ("size", Entry.size e);
    ("median_ns", cell (Entry.median_ns e));
    ("mean_ns", cell (Entry.mean_ns e));
    ("median_us", cell (JNumber (PFloat (Entry.median_us e))));
    ("median_ms", cell (JNumber (PFloat (Entry.median_ms e))));
    ("timestamp", Entry.timestamp e);
    ("source", Entry.source e) ].

(** [r[key] = v]: an existing key keeps its place. *)
Fixpoint dict_set (key v : string) (d : list (string * string)) : list (string * string) :=
  match d with
  | [] => [(key, v)]
  | (k, x) :: d' =>
      if String.eqb k key then (k, v) :: d' else (k, x) :: dict_set key v d'
  end.

(** The column lists of [export_csv]. *)
Definition history_fieldnames : list string :=
  [ "timestamp"; "benchmark"; "test"; "operation"; "size";
    "median_ns"; "mean_ns"; "median_us"; "median_ms" ].

Definition plain_fieldnames : list string :=
  [ "benchmark"; "test"; "operation"; "size";
    "median_ns"; "mean_ns"; "median_us"; "median_ms" ].

(** [DictWriter._dict_to_list]: a key outside the columns is refused, a
    missing column is written empty. *)
Definition dict_to_list (fieldnames : list string) (rowdict : list (string * string))
  : outcome (list string) :=
  if forallb (λ kv, bool_decide (kv.1 ∈ fieldnames)) rowdict then
    Returned (map (λ key, default "" (assoc key rowdict)) fieldnames)
  else Raised ValueError.

(** [writer.writerows]: rows go out one by one, up to the first refused. *)
Fixpoint writerows (fieldnames : list string) (rows : list (list (string * string)))
    (file : list line) : list line * outcome () :=
  match rows with
  | [] => (file, Returned ())
  | r :: rows' =>
      match dict_to_list fieldnames r with
      | Returned cells => writerows fieldnames rows' (file ++ [Row cells])%list
      | Raised e => (file, Raised e)
      end
  end.

(** [export_csv]: the dicts as mutated, the content of the file afterwards,
    and how the call ended.  What is written follows the old content; after
    [Open] text its first line continues that text.  The values of the
    dicts are taken as their cell texts; [now] is
    [datetime.now().isoformat()]. *)
Definition export_csv
    (now : string) (results : list (list (string * string)))
    (output_path : option (list line)) (append : bool)
  : list (list (string * string)) * option (list line) * outcome () :=
  match results with
  | [] => (results, output_path, Returned ())
  | _ =>
      let results :=
        if append then map (dict_set "timestamp" now) results else results in
      let fieldnames := if append then history_fieldnames else plain_fieldnames in
      let exists_ := bool_decide (is_Some output_path) in
      let write_header := negb (append && exists_) in
      let opened := if append && exists_ then default [] output_path else [] in
      let headed := if write_header then (opened ++ [Row fieldnames])%list else opened in
      let '(file, o) := writerows fieldnames results headed in
      (results, Some file, o)
  end.

End Report.

(** An entry of the report script with a float median. *)
Definition entry (benchmark operation : string) (median : float) : Entry.t :=
  {| Entry.benchmark := benchmark; Entry.test := operation;
     Entry.operation := operation; Entry.size := "N/A";
     Entry.median_ns := JNumber (PFloat median);
     Entry.mean_ns := JNumber (PFloat median);
     Entry.median_us := median / 1000; Entry.median_ms := median / 1000000;
     Entry.timestamp := "2024-01-01T12:00:00"; Entry.source := "base" |}.

(** The table of three entries, of two benchmarks. *)
Definition sample_table : string :=
  Report.join Report.newline
    [ "# Benchmark Results"; "";
      ""; "## get"; "";
      "| Operation | Size | Median Time | Throughput |";
      "|-----------|------|-------------|------------|";
      "| insert | N/A | 2.50 ms | 400.00 ops/s |";
      "| lookup | N/A | 250.00 ns | 4.00 Mops/s |";
      ""; "## set"; "";
      "| Operation | Size | Median Time | Throughput |";
      "|-----------|------|-------------|------------|";
      "| insert | N/A | 500.00 ns | 2.00 Mops/s |" ].

(** A test directory with both [base] and [new] results. *)
Definition base_and_new : node :=
  Dir noon [ with_source "base" (estimates (PInt 500) (PInt 520));
             with_source "new" (estimates (PInt 250) (PInt 260)) ].

(** A benchmark directory name passes the filter: no filter, or the
    filter text occurs in the name. *)
Definition selected (bench_filter : option string) (name : string) : bool :=
  match bench_filter with
  | Some f => contains f name
  | None => true
  end.

(** [file] is where the discoverer reads the record named [test_name] of
    the test directory [test_dir] named [test_dir_name]: the file
    [source/estimates.json] of the test directory itself, or, when it has
    none, that of one of its parameter directories. *)
Definition estimates_of (source test_dir_name : string) (test_dir : node)
    (test_name : string) (file : node) : Prop :=
  (estimates_path test_dir source = Some file ∧ test_name = test_dir_name) ∨
  (estimates_path test_dir source = None ∧
   ∃ param_name param_dir,
     (param_name, param_dir) ∈ iterdir test_dir ∧
     is_dir param_dir = true ∧
     estimates_path param_dir source = Some file ∧
     test_name = test_dir_name +:+ "/" +:+ param_name).

(** An object holds no point estimate under [key]: the member is absent,
    or it is an object without ["point_estimate"]. *)
Definition lacks_estimate (key : string) (members : list (string * json)) : bool :=
  match assoc key members with
  | None => true
  | Some (JObject m) =>
      match assoc "point_estimate" m with None => true | Some _ => false end
  | Some _ => false
  end.

(** * Properties *)

(** ** Strings *)

Lemma append_nil (b : string) : "" +:+ b = b.
Proof. reflexivity. Qed.

Lemma append_cons (x : ascii) (a b : string) :
  String x a +:+ b = String x (a +:+ b).
Proof. reflexivity. Qed.



Lemma split_not_nil sep s : split sep s ≠ [].
Proof.
  destruct s as [|c s]; simpl; [done |].
  destruct (Ascii.eqb c sep); [done |]. by destruct (split sep s).
Qed.

Lemma split_no_sep sep s : no_char sep s = true → split sep s = [s].
Proof.
  induction s as [|c s IH]; simpl; [done |].
  intros [Hc Hs]%andb_true_iff. apply negb_true_iff in Hc.
  by rewrite Hc, IH.
Qed.

Lemma split_app_sep sep a b :
  no_char sep a = true → split sep (a +:+ String sep b) = a :: split sep b.
Proof.
  induction a as [|c a IH].
  - intros _. rewrite append_nil. simpl. by rewrite Ascii.eqb_refl.
  - rewrite append_cons. simpl.
    intros [Hc Ha]%andb_true_iff. apply negb_true_iff in Hc.
    by rewrite Hc, IH.
Qed.

Lemma no_char_app c a b :
  no_char c (a +:+ b) = no_char c a && no_char c b.
Proof.
  induction a as [|x a IH]; [done |].
  rewrite append_cons. simpl. by rewrite IH, andb_assoc.
Qed.

Lemma digit_not_char c d :
  is_ascii_digit c = true → is_ascii_digit d = false → Ascii.eqb c d = false.
Proof.
  intros Hc Hd. apply Ascii.eqb_neq. intros ->. congruence.
Qed.

Lemma all_digits_no_char c s :
  is_ascii_digit c = false → all_digits s = true → no_char c s = true.
Proof.
  intros Hc. induction s as [|x s IH]; simpl; [done |].
  intros [Hx Hs]%andb_true_iff.
  by rewrite (digit_not_char x c), IH.
Qed.

Lemma all_digits_app a b :
  all_digits (a +:+ b) = all_digits a && all_digits b.
Proof.
  induction a as [|x a IH]; [done |].
  rewrite append_cons. simpl. by rewrite IH, andb_assoc.
Qed.

Lemma pretty_N_char_digit x : is_ascii_digit (pretty_N_char x) = true.
Proof. unfold pretty_N_char. by repeat case_match. Qed.

Lemma pretty_N_go_digits x s :
  all_digits s = true → all_digits (pretty_N_go x s) = true.
Proof.
  revert s. induction (N.lt_wf_0 x) as [x _ IH]; intros s Hs.
  destruct (decide (x = 0)%N) as [->|Hx]; [by rewrite pretty_N_go_0 |].
  rewrite pretty_N_go_step by lia.
  apply IH; [apply N.div_lt; lia |].
  simpl. by rewrite pretty_N_char_digit.
Qed.

Lemma pretty_N_go_not_empty x s : s ≠ "" → pretty_N_go x s ≠ "".
Proof.
  revert s. induction (N.lt_wf_0 x) as [x _ IH]; intros s Hs.
  destruct (decide (x = 0)%N) as [->|Hx]; [by rewrite pretty_N_go_0 |].
  rewrite pretty_N_go_step by lia.
  apply IH; [apply N.div_lt; lia | done].
Qed.

Lemma pretty_N_isdigit (x : N) : isdigit (pretty x) = true.
Proof.
  assert (all_digits (pretty x) = true) as Hd.
  { unfold pretty, pretty_N. case_decide; [done |]. by apply pretty_N_go_digits. }
  assert (pretty x ≠ "") as Hne.
  { unfold pretty, pretty_N. case_decide; [done |].
    rewrite pretty_N_go_step by lia. by apply pretty_N_go_not_empty. }
  unfold isdigit. by destruct (pretty x).
Qed.

Lemma isdigit_all_digits s : isdigit s = true → all_digits s = true.
Proof. by destruct s. Qed.

(** ** Two-decimal rendering *)

Lemma digit_char_digit d : (0 ≤ d ≤ 9)%Z → is_ascii_digit (digit_char d) = true.
Proof.
  intros Hd.
  assert (d = 0 ∨ d = 1 ∨ d = 2 ∨ d = 3 ∨ d = 4 ∨ d = 5 ∨ d = 6 ∨ d = 7 ∨
          d = 8 ∨ d = 9)%Z as Hcases by lia.
  by destruct_or!; subst.
Qed.

Lemma round_half_even_nonneg num den :
  (0 ≤ num)%Z → (0 < den)%Z → (0 ≤ round_half_even num den)%Z.
Proof.
  intros Hn Hd. unfold round_half_even.
  assert (0 ≤ num / den)%Z by (apply Z.div_pos; lia).
  repeat case_match; lia.
Qed.

Lemma hundredths_nonneg m e : (0 ≤ hundredths m e)%Z.
Proof.
  unfold hundredths. case_match.
  - assert (0 ≤ 2 ^ e)%Z by (apply Z.pow_nonneg; lia). lia.
  - apply round_half_even_nonneg; [lia |]. apply Z.pow_pos_nonneg; lia.
Qed.

(** The text after the sign in [fixed2]. *)
Lemma fixed2_body k :
  (0 ≤ k)%Z →
  ∃ ip fp,
    fixed2 false k = ip +:+ String "." fp ∧
    isdigit ip = true ∧ all_digits fp = true ∧ String.length fp = 2%nat.
Proof.
  intros Hk. eexists _, _. split; [reflexivity |].
  split; [apply pretty_N_isdigit |].
  split; [| done].
  simpl. rewrite !digit_char_digit; [done | |].
  - pose proof (Z.mod_pos_bound k 10). lia.
  - pose proof (Z.mod_pos_bound k 100).
    split; [apply Z.div_pos; lia |].
    apply Z.lt_succ_r, Z.div_lt_upper_bound; lia.
Qed.

Lemma fixed2_sign negative k :
  fixed2 negative k = (if negative then "-" else "") +:+ fixed2 false k.
Proof. by destruct negative. Qed.

Lemma isdigit_head s :
  isdigit s = true → ∃ c s', s = String c s' ∧ is_ascii_digit c = true.
Proof.
  destruct s as [|c s']; [done |]. simpl.
  intros [Hc _]%andb_true_iff. eauto.
Qed.

Lemma fixed2_two_decimals negative k :
  (0 ≤ k)%Z → two_decimals (fixed2 negative k) = true.
Proof.
  intros Hk. rewrite fixed2_sign.
  destruct (fixed2_body k Hk) as (ip & fp & -> & Hip & Hfp & Hlen).
  assert (split "." (ip +:+ String "." fp) = [ip; fp]) as Hsplit.
  { rewrite split_app_sep.
    - rewrite split_no_sep; [done |]. by apply all_digits_no_char.
    - apply all_digits_no_char; [done |]. by apply isdigit_all_digits. }
  unfold two_decimals. destruct negative.
  - rewrite append_cons, append_nil. simpl Ascii.eqb. cbv iota.
    by rewrite Hsplit, Hip, Hfp, Hlen.
  - rewrite append_nil.
    destruct (isdigit_head ip Hip) as (c & ip' & Heq & Hc).
    rewrite Heq at 1. rewrite append_cons.
    rewrite (digit_not_char c "-" Hc eq_refl).
    by rewrite Hsplit, Hip, Hfp, Hlen.
Qed.

Lemma fixed2_no_space negative k :
  (0 ≤ k)%Z → no_char " " (fixed2 negative k) = true.
Proof.
  intros Hk. rewrite fixed2_sign.
  destruct (fixed2_body k Hk) as (ip & fp & -> & Hip & Hfp & Hlen).
  assert (no_char " " ip = true) as Hi
    by (apply all_digits_no_char; [done | by apply isdigit_all_digits]).
  assert (no_char " " fp = true) as Hf by by apply all_digits_no_char.
  rewrite !no_char_app. simpl. rewrite Hi, Hf. by destruct negative.
Qed.

Lemma format_2f_finite x :
  is_finite x = true → ∃ negative k, (0 ≤ k)%Z ∧ format_2f x = fixed2 negative k.
Proof.
  unfold is_finite, format_2f. destruct (Prim2SF x) as [s|s| |s m e]; try done.
  - intros _. by exists s, 0%Z.
  - intros _. exists s, (hundredths m e). split; [apply hundredths_nonneg | done].
Qed.

Lemma well_displayed_display v :
  is_finite (displayed v) = true → well_displayed (display v) = true.
Proof.
  intros (negative & k & Hk & Heq)%format_2f_finite.
  unfold display, well_displayed. rewrite Heq.
  change (fixed2 negative k +:+ " " +:+ suffix (magnitude_of v))
    with (fixed2 negative k +:+ String " " (suffix (magnitude_of v))).
  rewrite split_app_sep by by apply fixed2_no_space.
  rewrite fixed2_two_decimals by done.
  by destruct (magnitude_of v).
Qed.

(** ** Throughput calculator *)

Lemma gt_zero_not_eq_zero ns : gt_zero ns = true → eq_zero ns = false.
Proof.
  destruct ns as [z|f]; simpl.
  - intros H%Z.ltb_lt. apply Z.eqb_neq. lia.
  - rewrite FloatAxioms.ltb_spec, FloatAxioms.eqb_spec.
    change (Prim2SF 0) with (S754_zero false).
    by destruct (Prim2SF f) as [[]|[]| |[] m e].
Qed.

Lemma format_throughput_display ns n v :
  eq_zero ns = false →
  truediv (n * 1000000000) ns = Returned v →
  format_throughput ns n = Returned (v, display v).
Proof.
  intros Hz Hv. unfold format_throughput. rewrite Hz, Hv. simpl.
  unfold display, displayed, magnitude_of.
  by repeat case_match.
Qed.

Lemma truediv_no_zero_division a ns :
  eq_zero ns = false → truediv a ns ≠ Raised ZeroDivisionError.
Proof.
  destruct ns as [z|f]; simpl; intros Hz.
  - unfold int_truediv. rewrite Hz. by case_match.
  - rewrite Hz. unfold float_of_int. by case_match.
Qed.

Lemma format_throughput_no_zero_division ns n :
  format_throughput ns n ≠ Raised ZeroDivisionError.
Proof.
  unfold format_throughput. destruct (eq_zero ns) eqn:Hz; [done |].
  pose proof (truediv_no_zero_division (n * 1000000000) ns Hz) as Hd.
  destruct (truediv (n * 1000000000) ns) as [v|e]; [done |].
  intros He. cbv [mbind outcome_bind] in He. by injection He as ->.
Qed.

(** C3.  Whatever the operation count, a time of zero nanoseconds (the int
    0, or the float 0.0 of either sign) makes the throughput calculator
    return the pair of 0.0 and the fixed string "N/A"; the call returns, so
    nothing is raised and no division takes place.  The formatter of
    [parse_bench_results.py], which yields the display string alone,
    returns the same "N/A". *)
Theorem format_throughput_zero_time ns n :
  eq_zero ns = true →
  format_throughput ns n = Returned (0%float, "N/A") ∧
  ParseBenchResults.format_throughput ns n = Returned "N/A".
Proof.
  intros Hz. unfold format_throughput, ParseBenchResults.format_throughput.
  by rewrite Hz.
Qed.

Lemma format_throughput_zero_time_witness :
  eq_zero (PFloat (-0)) = true ∧
  format_throughput (PFloat (-0)) 250 = Returned (0%float, "N/A") ∧
  ParseBenchResults.format_throughput (PFloat (-0)) 250 = Returned "N/A".
Proof.
  split; [reflexivity |].
  apply (format_throughput_zero_time (PFloat (-0)) 250). reflexivity.
Defined.

Lemma format_throughput_formatters_agree ns n :
  ParseBenchResults.format_throughput ns n = snd <$> format_throughput ns n.
Proof.
  unfold ParseBenchResults.format_throughput, format_throughput.
  destruct (eq_zero ns); [done |].
  destruct (truediv (n * 1000000000) ns) as [v|e]; [| done].
  cbv [mbind outcome_bind fmap outcome_fmap]. by repeat case_match.
Qed.

(** With a float time the quotient is computed as soon as the product
    [n * 10^9] converts to a float. *)
Lemma truediv_float a f x :
  gt_zero (PFloat f) = true →
  float_of_int a = Returned x →
  truediv a (PFloat f) = Returned (x / f)%float.
Proof.
  intros Hpos%gt_zero_not_eq_zero Hx. simpl in *. by rewrite Hx, Hpos.
Qed.

(** C4, as the code has it.  For a time above zero whose quotient
    [n * 10^9 / ns] the interpreter computes as the float [v], the calculator
    returns [v] together with a display string that depends on [v] alone:
    [v] over 10^9, 10^6 or 10^3 with the unit "Gops/s", "Mops/s" or "Kops/s"
    when [v] reaches that threshold, [v] itself with "ops/s" below.  When
    the number displayed is finite it is printed with exactly two decimals.
    The formatter of [parse_bench_results.py] returns the same string. *)
Theorem format_throughput_positive_time ns n v :
  gt_zero ns = true →
  truediv (n * 1000000000) ns = Returned v →
  format_throughput ns n = Returned (v, display v) ∧
  ParseBenchResults.format_throughput ns n = Returned (display v) ∧
  (is_finite (displayed v) = true → well_displayed (display v) = true).
Proof.
  intros Hpos Hv.
  assert (format_throughput ns n = Returned (v, display v)) as Heq
    by by apply format_throughput_display; [apply gt_zero_not_eq_zero |].
  split; [done |]. split; [| apply well_displayed_display].
  by rewrite format_throughput_formatters_agree, Heq.
Qed.

Lemma format_throughput_positive_time_witness :
  gt_zero (PInt 500) = true ∧
  truediv (100 * 1000000000) (PInt 500) = Returned 200000000%float ∧
  format_throughput (PInt 500) 100 = Returned (200000000%float, display 200000000) ∧
  display 200000000 = "200.00 Mops/s" ∧
  well_displayed (display 200000000) = true.
Proof.
  assert (gt_zero (PInt 500) = true) as Hpos by reflexivity.
  assert (truediv (100 * 1000000000) (PInt 500) = Returned 200000000%float)
    as Hv by (vm_compute; reflexivity).
  destruct (format_throughput_positive_time (PInt 500) 100 _ Hpos Hv)
    as (Hcall & _ & Hshape).
  split; [exact Hpos |]. split; [exact Hv |]. split; [exact Hcall |].
  split; [vm_compute; reflexivity |].
  apply Hshape. vm_compute. reflexivity.
Defined.

(** C4, as stated, fails where the quotient overflows: a time of the
    smallest positive float gives an infinite throughput, shown as
    "inf Gops/s" with no decimals at all; and a count too large for a float
    makes the call raise. *)
Lemma format_throughput_overflow :
  gt_zero (PFloat 0x1p-1074%float) = true ∧
  format_throughput (PFloat 0x1p-1074%float) 1 = Returned (infinity, "inf Gops/s") ∧
  well_displayed "inf Gops/s" = false ∧
  gt_zero (PFloat 1) = true ∧
  format_throughput (PFloat 1) (10 ^ 300) = Raised OverflowError.
Proof. repeat split; vm_compute; reflexivity. Qed.

(** ** Operation count *)






Lemma size_n_unfold size :
  size_n size =
  if isdigit size && (String.length size <=? max_str_digits)%nat
  then decimal_value 0 size else 1%Z.
Proof.
  unfold size_n, int. destruct (isdigit size); [| done].
  by destruct (String.length size <=? max_str_digits)%nat.
Qed.

(** The decimal text of a natural number is read back as that number. *)
Lemma decimal_value_pretty_N_go x s :
  decimal_value 0 (pretty_N_go x s) =
  (Z.of_N x * 10 ^ Z.of_nat (String.length s) + decimal_value 0 s)%Z.
Proof.
  assert (∀ t acc, decimal_value acc t =
            (acc * 10 ^ Z.of_nat (String.length t) + decimal_value 0 t)%Z) as Hacc.
  { induction t as [|c t IH]; intros acc; simpl String.length; simpl decimal_value.
    - lia.
    - rewrite (IH (10 * acc + digit_value c)%Z), (IH (10 * 0 + digit_value c)%Z).
      rewrite Nat2Z.inj_succ, Z.pow_succ_r; [ring | lia]. }
  revert s. induction (N.lt_wf_0 x) as [x _ IH]; intros s.
  destruct (decide (x = 0)%N) as [->|Hx]; [rewrite pretty_N_go_0; lia |].
  rewrite pretty_N_go_step by lia.
  rewrite IH by (apply N.div_lt; lia).
  simpl String.length. simpl decimal_value.
  rewrite (Hacc s (10 * 0 + _)%Z).
  rewrite Nat2Z.inj_succ, Z.pow_succ_r; [| lia].
  assert (digit_value (pretty_N_char (x `mod` 10)) = Z.of_N (x `mod` 10)) as ->.
  { assert (x `mod` 10 < 10)%N by by apply N.mod_lt.
    assert (x `mod` 10 = 0 ∨ x `mod` 10 = 1 ∨ x `mod` 10 = 2 ∨ x `mod` 10 = 3 ∨
            x `mod` 10 = 4 ∨ x `mod` 10 = 5 ∨ x `mod` 10 = 6 ∨ x `mod` 10 = 7 ∨
            x `mod` 10 = 8 ∨ x `mod` 10 = 9)%N as Hm
      by (clear -H; generalize dependent (x `mod` 10)%N; intros; lia).
    by destruct_or!; rewrite Hm. }
  rewrite (N.div_mod x 10) at 3 by done.
  rewrite N2Z.inj_add, N2Z.inj_mul. change (Z.of_N 10) with 10%Z. ring.
Qed.

Lemma size_n_pretty (x : N) :
  (String.length (pretty x) ≤ max_str_digits)%nat → size_n (pretty x) = Z.of_N x.
Proof.
  intros Hlen%Nat.leb_le. rewrite size_n_unfold, pretty_N_isdigit, Hlen.
  cbn [andb]. clear Hlen.
  unfold pretty, pretty_N. case_decide as Hx; [by subst |].
  rewrite decimal_value_pretty_N_go. simpl. lia.
Qed.

Example size_n_samples :
  size_n "100" = 100%Z ∧ size_n "007" = 7%Z ∧ size_n "0" = 0%Z ∧
  size_n "N/A" = 1%Z ∧ size_n "-5" = 1%Z ∧ size_n "+5" = 1%Z ∧
  size_n "1.5" = 1%Z ∧ size_n "1e3" = 1%Z ∧ size_n "large" = 1%Z ∧
  size_n "" = 1%Z ∧ size_n " 12" = 1%Z.
Proof. repeat split. Qed.

(** ** Reading one estimates file *)

Lemma bind_returned {A B} (m : outcome A) (k : A → outcome B) b :
  m ≫= k = Returned b → ∃ a, m = Returned a ∧ k a = Returned b.
Proof. destruct m as [a|e]; [eauto | done]. Qed.

Lemma read_estimates_returned f bench test_name source tag r :
  read_estimates f bench test_name source tag = Returned r →
  ∃ ns mean_ns v pretty,
    format_throughput ns (size_n (Result.size r)) = Returned (v, pretty) ∧
    r = {| Result.run_id := get_run_id_from_file f;
           Result.benchmark := bench;
           Result.test_name := test_name;
           Result.operation :=
             match split slash test_name with p :: _ => p | [] => test_name end;
           Result.size :=
             match split slash test_name with _ :: q :: _ => q | _ => "N/A" end;
           Result.median_ns := round_2 ns;
           Result.mean_ns := round_2 mean_ns;
           Result.throughput_ops_sec := round2 v;
           Result.throughput_pretty := pretty;
           Result.timestamp := isoformat (getmtime f);
           Result.tag := tag |}.
Proof.
  unfold read_estimates. intros H.
  apply bind_returned in H as (data & _ & H).
  apply bind_returned in H as (median & _ & H).
  apply bind_returned in H as (median_ns & _ & H).
  apply bind_returned in H as (mean & _ & H).
  apply bind_returned in H as (mean_ns & _ & H).
  apply bind_returned in H as ([v pretty] & Hthroughput & H).
  apply bind_returned in Hthroughput as (ns & Hns & Hthroughput).
  apply bind_returned in H as (ns' & Hns' & H).
  apply bind_returned in H as (mean_ns' & _ & H).
  rewrite Hns in Hns'. injection Hns' as <-. injection H as <-.
  by exists ns, mean_ns', v, pretty.
Qed.

Lemma process_estimates_file_length f bench test_name source tag :
  (length (process_estimates_file f bench test_name source tag) ≤ 1)%nat.
Proof.
  unfold process_estimates_file. repeat case_match; simpl; lia.
Qed.

Lemma process_estimates_file_elem f bench test_name source tag r :
  r ∈ process_estimates_file f bench test_name source tag →
  ∃ file, f = Some file ∧
          read_estimates file bench test_name source tag = Returned r.
Proof.
  unfold process_estimates_file. destruct f as [file|]; [| by intros ?%elem_of_nil].
  destruct (read_estimates file bench test_name source tag) as [r'|e] eqn:Hr;
    [| by intros ?%elem_of_nil].
  intros ->%list_elem_of_singleton. eauto.
Qed.




(** ** Path normalizer *)

Lemma split_segment s :
  split slash s =
  segment s :: match after_slash s with
               | Some rest => split slash rest
               | None => []
               end.
Proof.
  induction s as [|c s IH]; simpl; [done |].
  destruct (Ascii.eqb c slash); [done |].
  rewrite IH. by destruct (after_slash s).
Qed.

Lemma segment_no_slash s : no_char slash (segment s) = true.
Proof.
  induction s as [|c s IH]; simpl; [done |].
  destruct (Ascii.eqb c slash) eqn:Hc; simpl; [done |]. by rewrite Hc.
Qed.

(** A name is its first segment, then a slash and the rest if any. *)
Lemma segment_after_slash s :
  s = segment s +:+ match after_slash s with
                    | Some rest => String slash rest
                    | None => ""
                    end.
Proof.
  induction s as [|c s IH]; simpl; [done |].
  destruct (Ascii.eqb c slash) eqn:Hc.
  - apply Ascii.eqb_eq in Hc as ->. by rewrite append_nil.
  - rewrite append_cons. by f_equal.
Qed.


Lemma segment_joined a b :
  no_char slash a = true →
  segment (a +:+ "/" +:+ b) = a ∧ after_slash (a +:+ "/" +:+ b) = Some b.
Proof.
  induction a as [|c a IH].
  - intros _. by rewrite append_nil.
  - rewrite append_cons. simpl.
    intros [Hc Ha]%andb_true_iff. apply negb_true_iff in Hc. rewrite Hc.
    destruct (IH Ha) as [-> ->]. done.
Qed.

Lemma read_estimates_names f bench test_name source tag r :
  read_estimates f bench test_name source tag = Returned r →
  Result.test_name r = test_name ∧
  Result.operation r = segment test_name ∧
  Result.size r = match after_slash test_name with
                  | Some rest => segment rest
                  | None => "N/A"
                  end.
Proof.
  intros (ns & mean_ns & v & pretty & _ & ->)%read_estimates_returned.
  simpl. rewrite split_segment. split; [done |]. split; [done |].
  destruct (after_slash test_name) as [rest|]; [| done].
  by rewrite split_segment.
Qed.

Lemma test_results_parameterized bench source tag test_dir_name test_dir r :
  estimates_path test_dir source = None →
  r ∈ test_results bench source tag (test_dir_name, test_dir) →
  ∃ param_name param_dir file,
    (param_name, param_dir) ∈ iterdir test_dir ∧
    estimates_path param_dir source = Some file ∧
    read_estimates file bench (test_dir_name +:+ "/" +:+ param_name) source tag
      = Returned r.
Proof.
  intros Hnone. unfold test_results. rewrite Hnone.
  destruct (is_dir test_dir); simpl; [| by intros ?%elem_of_nil].
  intros ([param_name param_dir] & Hin & Hr)%list_elem_of_In%in_flat_map.
  apply list_elem_of_In in Hin, Hr.
  exists param_name, param_dir. unfold param_results in Hr.
  destruct (is_dir param_dir); simpl in Hr; [| by apply elem_of_nil in Hr].
  case_bool_decide; [| by apply elem_of_nil in Hr].
  apply process_estimates_file_elem in Hr as (file & Hfile & Hr). eauto.
Qed.

(** C8.  The normalizer takes [operation] to be the text of the test
    identity before its first slash, and [size] the segment after that
    slash, or "N/A" when the identity has no slash.  A record found one
    level deeper carries the identity made of the test-directory name, a
    slash, and the parameter-directory name; with a slash-free directory
    name, the operation is that name and the size the parameter's. *)
Theorem operation_and_size_of_test_name :
  (∀ f bench test_name source tag r,
     read_estimates f bench test_name source tag = Returned r →
     Result.test_name r = test_name ∧
     Result.operation r = segment test_name ∧
     Result.size r = match after_slash test_name with
                     | Some rest => segment rest
                     | None => "N/A"
                     end) ∧
  (∀ bench source tag test_dir_name test_dir r,
     estimates_path test_dir source = None →
     r ∈ test_results bench source tag (test_dir_name, test_dir) →
     ∃ param_name param_dir,
       (param_name, param_dir) ∈ iterdir test_dir ∧
       Result.test_name r = test_dir_name +:+ "/" +:+ param_name ∧
       (no_char slash test_dir_name = true →
        Result.operation r = test_dir_name ∧
        Result.size r = segment param_name)).
Proof.
  split; [apply read_estimates_names |].
  intros bench source tag test_dir_name test_dir r Hnone Hr.
  destruct (test_results_parameterized _ _ _ _ _ _ Hnone Hr)
    as (param_name & param_dir & file & Hin & _ & Hread).
  apply read_estimates_names in Hread as (Hname & Hop & Hsize).
  exists param_name, param_dir. split; [done |]. split; [done |].
  intros Hslash. rewrite Hop, Hsize.
  by destruct (segment_joined test_dir_name param_name Hslash) as [-> ->].
Qed.

Lemma operation_and_size_of_test_name_witness :
  ∃ r,
    test_results "compare_get" "new" ""
      ("insert", Dir noon [("100", Dir noon [with_source "new" (estimates (PInt 500) (PInt 520))])])
      = [r] ∧
    Result.test_name r = "insert/100" ∧
    Result.operation r = "insert" ∧
    Result.size r = "100".
Proof.
  eexists. split; [vm_compute; reflexivity |].
  match goal with |- Result.test_name ?r = _ ∧ _ => set (rec := r) end.
  destruct (proj2 operation_and_size_of_test_name
              "compare_get" "new" "" "insert"
              (Dir noon [("100", Dir noon [with_source "new" (estimates (PInt 500) (PInt 520))])])
              rec eq_refl)
    as (param_name & param_dir & _ & Hname & _).
  { vm_compute. apply list_elem_of_singleton. reflexivity. }
  repeat split; vm_compute; reflexivity.
Defined.

(** ** Two-level and three-level layouts *)

Lemma test_results_direct bench source tag name mtime entries f :
  estimates_path (Dir mtime entries) source = Some f →
  test_results bench source tag (name, Dir mtime entries) =
  process_estimates_file (Some f) bench name source tag.
Proof.
  intros Hf. unfold test_results. by rewrite Hf.
Qed.

Lemma process_estimates_file_one f bench test_name source tag :
  length (process_estimates_file (Some f) bench test_name source tag) = 1%nat ↔
  returns (read_estimates f bench test_name source tag) = true.
Proof.
  unfold process_estimates_file.
  by destruct (read_estimates f bench test_name source tag).
Qed.

(** A file of well-formed estimates yields a record as soon as the
    throughput of its median can be computed. *)
Lemma read_estimates_numbers
    mtime members median mean ns mean_ns bench test_name source tag :
  assoc "median" members = Some (JObject median) →
  assoc "point_estimate" median = Some (JNumber ns) →
  assoc "mean" members = Some (JObject mean) →
  assoc "point_estimate" mean = Some (JNumber mean_ns) →
  returns (read_estimates (File mtime (Some (JObject members)))
             bench test_name source tag) =
  returns (format_throughput ns
             (size_n match after_slash test_name with
                     | Some rest => segment rest
                     | None => "N/A"
                     end)).
Proof.
  intros Hmedian Hns Hmean Hmean_ns. unfold read_estimates. simpl.
  rewrite Hmedian. simpl. rewrite Hns, Hmean. simpl. rewrite Hmean_ns. simpl.
  rewrite split_segment.
  destruct (after_slash test_name) as [rest|];
    [rewrite split_segment |];
    by destruct (format_throughput ns _) as [[v pretty]|e].
Qed.

(** C5, as the code has it.  When a test directory holds
    [source/estimates.json] directly, its records are those of that one
    file, whatever its parameter subdirectories contain: at most one
    record, exactly one when reading the file succeeds (as it does for
    well-formed estimates whose throughput can be computed) and none when
    it fails, and its test identity is the directory name alone. *)
Theorem two_level_match_excludes_parameters bench source tag name mtime entries f :
  estimates_path (Dir mtime entries) source = Some f →
  let found := test_results bench source tag (name, Dir mtime entries) in
  found = process_estimates_file (Some f) bench name source tag ∧
  (length found ≤ 1)%nat ∧
  (length found = 1%nat ↔
   returns (read_estimates f bench name source tag) = true) ∧
  (∀ file_mtime members median mean ns mean_ns,
     f = File file_mtime (Some (JObject members)) →
     assoc "median" members = Some (JObject median) →
     assoc "point_estimate" median = Some (JNumber ns) →
     assoc "mean" members = Some (JObject mean) →
     assoc "point_estimate" mean = Some (JNumber mean_ns) →
     returns (format_throughput ns
                (size_n match after_slash name with
                        | Some rest => segment rest
                        | None => "N/A"
                        end)) = true →
     length found = 1%nat) ∧
  (∀ r, r ∈ found → Result.test_name r = name) ∧
  (∀ entries',
     estimates_path (Dir mtime entries') source = Some f →
     test_results bench source tag (name, Dir mtime entries') = found).
Proof.
  intros Hf found. subst found. rewrite (test_results_direct _ _ _ _ _ _ _ Hf).
  split; [done |].
  split; [apply process_estimates_file_length |].
  split; [apply process_estimates_file_one |].
  split; [| split].
  - intros file_mtime members median mean ns mean_ns -> Hm Hns Hmean Hmean_ns Hcall.
    apply process_estimates_file_one.
    by rewrite (read_estimates_numbers _ _ _ _ _ _ _ _ _ _ Hm Hns Hmean Hmean_ns).
  - intros r (file & _ & Hr)%process_estimates_file_elem.
    by apply read_estimates_names in Hr as [? _].
  - intros entries' Hf'. by apply test_results_direct.
Qed.

Lemma two_level_match_excludes_parameters_witness :
  let test_dir_entries :=
    [ with_source "new" (estimates (PInt 500) (PInt 520));
      ("100", Dir noon [with_source "new" (estimates (PInt 250) (PInt 260))]) ] in
  estimates_path (Dir noon test_dir_entries) "new"
    = Some (estimates (PInt 500) (PInt 520)) ∧
  length (test_results "compare_get" "new" "" ("insert", Dir noon test_dir_entries))
    = 1%nat.
Proof.
  intros test_dir_entries.
  assert (estimates_path (Dir noon test_dir_entries) "new"
          = Some (estimates (PInt 500) (PInt 520))) as Hf by reflexivity.
  split; [exact Hf |].
  destruct (two_level_match_excludes_parameters
              "compare_get" "new" "" "insert" noon test_dir_entries _ Hf)
    as (_ & _ & Hone & _).
  apply Hone. vm_compute. reflexivity.
Defined.

(** C5, as stated, fails when the direct file cannot be parsed: the test
    directory has both layouts, its parameter directory holds a good file,
    and no record at all is produced. *)
Lemma two_level_match_unparsable :
  is_Some (estimates_path broken_direct "new") ∧
  (∃ param_dir, child broken_direct "100" = Some param_dir ∧
                is_dir param_dir = true ∧
                is_Some (estimates_path param_dir "new")) ∧
  test_results "compare_get" "new" "" ("insert", broken_direct) = [] ∧
  parse_benchmark_results
    (Some (Dir noon [("compare_get", Dir noon [("insert", broken_direct)])]))
    "new" None "" = Returned [].
Proof.
  split; [by eexists |].
  split; [eexists; repeat split; by eexists |].
  split; vm_compute; reflexivity.
Qed.

(** ** The filtering loop *)

Lemma fresh_length known results :
  (length (fresh known results) ≤ length results)%nat.
Proof.
  revert known. induction results as [|r rs IH]; intros known; simpl; [lia |].
  case_bool_decide; simpl; [specialize (IH known) | specialize (IH ({[result_key r]} ∪ known))]; lia.
Qed.

Lemma filter_fold results st :
  fold_left filter_step results st =
  {| new_results := (new_results st ++ fresh (seen st) results)%list;
     skipped := skipped st + (length results - length (fresh (seen st) results));
     seen := list_to_set (keys results) ∪ seen st |}.
Proof.
  revert st. induction results as [|r rs IH]; intros [new k known]; simpl.
  - f_equal; [by rewrite app_nil_r | lia | set_solver].
  - rewrite IH. unfold filter_step. simpl.
    case_bool_decide as Hin; simpl.
    + pose proof (fresh_length known rs). f_equal; [lia | set_solver].
    + pose proof (fresh_length ({[result_key r]} ∪ known) rs).
      f_equal; [by rewrite <- app_assoc | set_solver].
Qed.

Lemma filter_duplicates_fresh results existing_ids :
  filter_duplicates results existing_ids =
  {| new_results := fresh existing_ids results;
     skipped := length results - length (fresh existing_ids results);
     seen := list_to_set (keys results) ∪ existing_ids |}.
Proof. unfold filter_duplicates. by rewrite filter_fold. Qed.


Lemma fresh_not_known known results r :
  r ∈ fresh known results → result_key r ∉ known.
Proof.
  revert known. induction results as [|r' rs IH]; intros known; simpl.
  - by intros ?%elem_of_nil.
  - case_bool_decide as Hin; [by apply IH |].
    intros [-> | Hr]%elem_of_cons; [done |].
    apply IH in Hr. set_solver.
Qed.

Lemma fresh_NoDup known results : NoDup (keys (fresh known results)).
Proof.
  revert known. induction results as [|r rs IH]; intros known; simpl.
  - constructor.
  - case_bool_decide as Hin; [apply IH |].
    simpl. constructor; [| apply IH].
    intros (r' & Hkey & Hr')%list_elem_of_fmap.
    apply fresh_not_known in Hr'. set_solver.
Qed.

Lemma fresh_first known results i r :
  results !! i = Some r →
  result_key r ∉ known →
  (∀ j r', (j < i)%nat → results !! j = Some r' → result_key r' ≠ result_key r) →
  r ∈ fresh known results.
Proof.
  revert known i. induction results as [|r' rs IH]; intros known i Hi Hnew Hfirst.
  - done.
  - destruct i as [|i]; simpl in *.
    + injection Hi as ->. rewrite bool_decide_eq_false_2 by done. by left.
    + assert (result_key r' ≠ result_key r) as Hne
        by (apply (Hfirst 0%nat); [lia | done]).
      assert (∀ j r'', (j < i)%nat → rs !! j = Some r'' →
                       result_key r'' ≠ result_key r) as Hfirst'
        by (intros j r'' Hj Hr''; apply (Hfirst (S j)); [lia | done]).
      case_bool_decide; [by eapply IH |].
      right. eapply IH; [done | set_solver | done].
Qed.

Lemma union_singleton_swap (k : string) (A known : gset string) :
  {[k]} ∪ A ∪ known = A ∪ ({[k]} ∪ known).
Proof. set_solver. Qed.

Lemma union_singleton_known (k : string) (A known : gset string) :
  k ∈ known → {[k]} ∪ A ∪ known = A ∪ known.
Proof. set_solver. Qed.

Lemma fresh_keys known results :
  list_to_set (keys (fresh known results)) ∪ known =@{gset string}
  list_to_set (keys results) ∪ known.
Proof.
  revert known. induction results as [|r rs IH]; intros known; simpl; [done |].
  case_bool_decide as Hin.
  - by rewrite IH, union_singleton_known.
  - simpl. by rewrite !union_singleton_swap, IH.
Qed.

Lemma fresh_all_known known results :
  (∀ r, r ∈ results → result_key r ∈ known) → fresh known results = [].
Proof.
  induction results as [|r rs IH]; intros Hall; simpl; [done |].
  rewrite bool_decide_eq_true_2 by (apply Hall; by left).
  apply IH. intros r' Hr'. apply Hall. by right.
Qed.

(** ** Writing *)

Lemma dict_to_list_columns float_repr r :
  dict_to_list float_repr (to_dict r) = columns float_repr r.
Proof. reflexivity. Qed.

Lemma writerows_columns float_repr rs :
  writerows float_repr rs = map (λ r, Row (columns float_repr r)) rs.
Proof. reflexivity. Qed.

Lemma export_to_csv_nonempty float_repr results csv_path existing_ids :
  results ≠ [] →
  export_to_csv float_repr results csv_path existing_ids =
  let st := filter_duplicates results existing_ids in
  match new_results st with
  | [] =>
      {| returned := 0; destination := csv_path; known_ids := seen st;
         printed := [NoNewResultsFound (skipped st)] |}
  | _ =>
      {| returned := length (new_results st);
         destination :=
           Some (default [] csv_path ++
                 (if absent_or_empty csv_path then [Row fieldnames] else []) ++
                 writerows float_repr (new_results st))%list;
         known_ids := seen st;
         printed :=
           Exported (length (new_results st)) ::
           (if (0 <? skipped st)%nat then [SkippedDuplicates (skipped st)]
            else []) |}
  end.
Proof.
  destruct results as [|r rs]; [done |]. intros _.
  unfold export_to_csv. cbv zeta.
  destruct (new_results (filter_duplicates (r :: rs) existing_ids)); [done |].
  by destruct csv_path as [[|? ?]|].
Qed.

Lemma export_to_csv_effect float_repr results csv_path existing_ids :
  let appended := fresh existing_ids results in
  export_to_csv float_repr results csv_path existing_ids =
  {| returned := length appended;
     destination :=
       match appended with
       | [] => csv_path
       | _ =>
           Some (default [] csv_path ++
                 (if absent_or_empty csv_path then [Row fieldnames] else []) ++
                 map (λ r, Row (columns float_repr r)) appended)%list
       end;
     known_ids := list_to_set (keys results) ∪ existing_ids;
     printed :=
       match results, appended with
       | [], _ => [NoNewResultsToExport]
       | _, [] => [NoNewResultsFound (length results)]
       | _, _ =>
           Exported (length appended) ::
           (if (0 <? length results - length appended)%nat
            then [SkippedDuplicates (length results - length appended)]
            else [])
       end |}.
Proof.
  intros appended. subst appended.
  destruct (decide (results = [])) as [-> | Hne].
  { unfold export_to_csv. f_equal. set_solver. }
  rewrite export_to_csv_nonempty by done. cbv zeta.
  rewrite filter_duplicates_fresh. cbv [new_results skipped seen].
  destruct (fresh existing_ids results) as [|a l];
    destruct results as [|r rs]; done.
Qed.

(** One more record: the loop takes one more step. *)
Lemma filter_duplicates_snoc before r existing_ids :
  filter_duplicates (before ++ [r]) existing_ids =
  filter_step (filter_duplicates before existing_ids) r.
Proof. unfold filter_duplicates. by rewrite fold_left_app. Qed.

Lemma filter_step_known st r :
  result_key r ∈ seen st →
  filter_step st r =
  {| new_results := new_results st; skipped := S (skipped st); seen := seen st |}.
Proof. intros Hin. unfold filter_step. by rewrite bool_decide_eq_true_2. Qed.

Lemma filter_duplicates_seen results existing_ids :
  seen (filter_duplicates results existing_ids) =
  list_to_set (keys results) ∪ existing_ids.
Proof. by rewrite filter_duplicates_fresh. Qed.

(** Two records with the same run identity and test identity have the
    same key, whatever their other fields. *)
Lemma result_key_identity r r' :
  Result.run_id r = Result.run_id r' →
  Result.test_name r = Result.test_name r' →
  result_key r = result_key r'.
Proof. unfold result_key. by intros -> ->. Qed.



Lemma export_to_csv_populated float_repr results csv_path existing_ids :
  absent_or_empty csv_path = false →
  ∃ rows,
    destination (export_to_csv float_repr results csv_path existing_ids) =
    Some (default [] csv_path ++
          map (λ r, Row (dict_to_list float_repr (to_dict r))) rows)%list.
Proof.
  intros Hpop. rewrite export_to_csv_effect. cbv zeta. cbv [destination].
  rewrite Hpop.
  destruct (fresh existing_ids results) as [|a l].
  - exists []. destruct csv_path as [lines|]; [| done].
    simpl. by rewrite app_nil_r.
  - by exists (a :: l).
Qed.

Lemma append_populated (old header rows : list line) :
  rows ≠ [] → absent_or_empty (Some (old ++ header ++ rows)%list) = false.
Proof. destruct old, header, rows; done. Qed.

(** C6.  The header is written exactly when at least one record is
    appended and the destination is missing or of size zero: a call that
    appends nothing leaves the destination as it was, and a call that
    appends writes the old lines, the header if the destination was missing
    or empty, then one row per new record with its cells in the order of
    the eleven columns.  After an append the destination is populated, so a
    later call adds rows only. *)
Theorem header_written_once float_repr results csv_path existing_ids :
  let appended := new_results (filter_duplicates results existing_ids) in
  let e := export_to_csv float_repr results csv_path existing_ids in
  fieldnames =
    [ "run_id"; "benchmark"; "test_name"; "operation"; "size"; "median_ns";
      "mean_ns"; "throughput_ops_sec"; "throughput_pretty"; "timestamp"; "tag" ] ∧
  (∀ r, dict_to_list float_repr (to_dict r) =
        [ Result.run_id r; Result.benchmark r; Result.test_name r;
          Result.operation r; Result.size r;
          str float_repr (VNum (Result.median_ns r));
          str float_repr (VNum (Result.mean_ns r));
          str float_repr (VNum (PFloat (Result.throughput_ops_sec r)));
          Result.throughput_pretty r; Result.timestamp r; Result.tag r ]) ∧
  (appended = [] → destination e = csv_path) ∧
  (appended ≠ [] →
   destination e =
     Some (default [] csv_path ++
           (if absent_or_empty csv_path then [Row fieldnames] else []) ++
           map (λ r, Row (dict_to_list float_repr (to_dict r))) appended)%list ∧
   absent_or_empty (destination e) = false ∧
   ∀ results' existing_ids',
     ∃ rows,
       destination (export_to_csv float_repr results' (destination e) existing_ids')
       = Some (default [] (destination e) ++
               map (λ r, Row (dict_to_list float_repr (to_dict r))) rows)%list).
Proof.
  intros appended e. subst appended e.
  rewrite export_to_csv_effect, filter_duplicates_fresh. cbv zeta. simpl.
  split; [done |]. split; [done |].
  destruct (fresh existing_ids results) as [|a l] eqn:Hf.
  { split; [done |]. by intros []. }
  split; [done |]. intros _.
  split; [done |].
  assert (absent_or_empty
            (Some (default [] csv_path ++
                   (if absent_or_empty csv_path then [Row fieldnames] else []) ++
                   map (λ r, Row (columns float_repr r)) (a :: l))%list) = false)
    as Hpopulated by by apply append_populated.
  split; [exact Hpopulated |].
  intros results' existing_ids'. by apply export_to_csv_populated.
Qed.

Lemma header_written_once_witness :
  let first := sample "20240101_120000" "insert/100" "" in
  let second := sample "20240102_090000" "insert/100" "" in
  let e := export_to_csv sample_repr [first] None ∅ in
  destination e = Some [Row fieldnames; Row (columns sample_repr first)] ∧
  destination (export_to_csv sample_repr [first; second] (destination e) (known_ids e))
  = Some [Row fieldnames; Row (columns sample_repr first);
          Row (columns sample_repr second)].
Proof.
  intros first second e.
  destruct (header_written_once sample_repr [first] None ∅)
    as (_ & _ & _ & Happend).
  destruct Happend as (Hdest & _ & _); [by vm_compute |].
  split; [exact Hdest |].
  vm_compute. reflexivity.
Defined.

Lemma row_key_columns float_repr r :
  row_key fieldnames (columns float_repr r) = result_key r.
Proof. reflexivity. Qed.

Lemma map_Row_columns float_repr results :
  map (λ r, Row (columns float_repr r)) results =
  map Row (map (columns float_repr) results).
Proof. by rewrite map_map. Qed.

(** C10.  Within one call the keys of the records kept are pairwise
    distinct: each key kept joins the known set at once, so a later record
    with the same key meets it there, is counted as skipped and is not
    kept.  What the call writes is the rows of the records kept and no
    others, after the old content and the header if one is due, and the
    call returns their number: the rows written in one call never share an
    identity key, whether taken from the records or read back through the
    header. *)
Theorem one_call_writes_each_key_once float_repr results csv_path existing_ids :
  let st := filter_duplicates results existing_ids in
  let e := export_to_csv float_repr results csv_path existing_ids in
  NoDup (keys (new_results st)) ∧
  seen st = list_to_set (keys results) ∪ existing_ids ∧
  known_ids e = seen st ∧
  (∀ before r between r' after,
     results = (before ++ r :: between ++ r' :: after)%list →
     result_key r = result_key r' →
     let st' := filter_duplicates (before ++ r :: between) existing_ids in
     filter_duplicates (before ++ r :: between ++ [r']) existing_ids =
     {| new_results := new_results st';
        skipped := S (skipped st');
        seen := seen st' |}) ∧
  (∀ i r,
     results !! i = Some r →
     result_key r ∉ existing_ids →
     (∀ j r', (j < i)%nat → results !! j = Some r' →
              result_key r' ≠ result_key r) →
     r ∈ new_results st) ∧
  (skipped st + length (new_results st) = length results)%nat ∧
  (∀ r1 r2 i j,
     new_results st !! i = Some r1 → new_results st !! j = Some r2 →
     Result.run_id r1 = Result.run_id r2 →
     Result.test_name r1 = Result.test_name r2 →
     i = j) ∧
  returned e = length (new_results st) ∧
  (∃ written,
     written = map (columns float_repr) (new_results st) ∧
     destination e =
       match written with
       | [] => csv_path
       | _ => Some (default [] csv_path ++
                    (if absent_or_empty csv_path then [Row fieldnames] else []) ++
                    map Row written)%list
       end ∧
     NoDup (map (row_key fieldnames) written) ∧
     ∀ i j cells cells',
       written !! i = Some cells → written !! j = Some cells' →
       row_key fieldnames cells = row_key fieldnames cells' → i = j).
Proof.
  intros st e. subst st e.
  rewrite export_to_csv_effect, filter_duplicates_fresh. cbv zeta.
  cbn [new_results skipped seen returned destination known_ids].
  assert (map (row_key fieldnames) (map (columns float_repr) (fresh existing_ids results))
          = keys (fresh existing_ids results)) as Hkeys.
  { rewrite map_map. apply map_ext. intros r. apply row_key_columns. }
  split; [apply fresh_NoDup |]. split; [done |]. split; [done |].
  split_and!.
  - intros before r between r' after _ Hkey.
    replace (before ++ r :: between ++ [r'])%list
      with ((before ++ r :: between) ++ [r'])%list
      by by rewrite <- app_assoc.
    rewrite filter_duplicates_snoc. apply filter_step_known.
    rewrite filter_duplicates_seen.
    apply elem_of_union_l, elem_of_list_to_set.
    unfold keys. rewrite map_app. simpl. rewrite <- Hkey.
    apply elem_of_app. right. by left.
  - intros i r. apply fresh_first.
  - pose proof (fresh_length existing_ids results). lia.
  - intros r1 r2 i j Hi Hj Hrun Htest.
    apply (NoDup_lookup (keys (fresh existing_ids results)) i j (result_key r1)).
    + apply fresh_NoDup.
    + unfold keys. by rewrite list_lookup_fmap, Hi.
    + unfold keys. rewrite list_lookup_fmap, Hj. simpl.
      f_equal. symmetry. by apply result_key_identity.
  - done.
  - exists (map (columns float_repr) (fresh existing_ids results)).
    split; [done |]. split.
    { rewrite <- map_Row_columns. by destruct (fresh existing_ids results). }
    rewrite Hkeys. split; [apply fresh_NoDup |].
    intros i j cells cells' Hi Hj Hsame.
    apply (NoDup_lookup (keys (fresh existing_ids results)) i j
             (row_key fieldnames cells)); [apply fresh_NoDup | |].
    + by rewrite <- Hkeys, list_lookup_fmap, Hi.
    + by rewrite <- Hkeys, list_lookup_fmap, Hj, Hsame.
Qed.

Lemma one_call_writes_each_key_once_witness :
  let first := sample "20240101_120000" "insert/100" "" in
  let again := sample "20240101_120000" "insert/100" "same second" in
  new_results (filter_duplicates [first; again] ∅) = [first] ∧
  skipped (filter_duplicates [first; again] ∅) = 1%nat ∧
  returned (export_to_csv sample_repr [first; again] None ∅) = 1%nat ∧
  destination (export_to_csv sample_repr [first; again] None ∅) =
    Some [Row fieldnames; Row (columns sample_repr first)].
Proof.
  intros first again.
  destruct (one_call_writes_each_key_once sample_repr [first; again] None ∅)
    as (_ & _ & _ & Hlater & _ & _ & _ & Hreturned & written & -> & Hdest & _).
  specialize (Hlater [] first [] again [] eq_refl eq_refl).
  simpl in Hlater. rewrite Hlater in Hreturned, Hdest |- *.
  split; [reflexivity |]. split; [reflexivity |].
  split; [exact Hreturned | exact Hdest].
Defined.

(** ** Reading the destination back *)


(** Terminated lines within the size limit are read as they are. *)
Lemma csv_reader_rows tail_rows rows rest :
  Forall (λ cells, within_limit cells = true) rows →
  csv_reader tail_rows (map Row rows ++ rest) =
  (map Returned rows ++ csv_reader tail_rows rest)%list.
Proof.
  induction 1 as [|cells rows Hcells _ IH]; [done |].
  cbn [map app csv_reader]. by rewrite Hcells, IH.
Qed.

Lemma csv_reader_table tail_rows rows :
  Forall (λ cells, within_limit cells = true) rows →
  csv_reader tail_rows (map Row rows) = map Returned rows.
Proof.
  intros Hrows. rewrite <- (app_nil_r (map Row rows)), csv_reader_rows by done.
  by rewrite app_nil_r.
Qed.


Lemma read_rows_returned header rows existing :
  (read_rows header (map Returned rows) existing).2 = Returned ().
Proof.
  revert existing. induction rows as [|cells rows IH]; intros existing; [done |].
  destruct cells as [|c cells]; simpl; apply IH.
Qed.










(** ** Idempotency *)








(** * Further properties *)

(** ** Discovery by the export script *)

Lemma zeros_digits n : all_digits (zeros n) = true.
Proof. induction n as [|n IH]; simpl; [done | by rewrite IH]. Qed.

Lemma zfill_digits width n : all_digits (zfill width n) = true.
Proof.
  unfold zfill. rewrite all_digits_app, zeros_digits. simpl.
  apply isdigit_all_digits, (pretty_N_isdigit (N.of_nat n)).
Qed.

Lemma zfill_no_colon width n : no_char ":" (zfill width n) = true.
Proof. apply all_digits_no_char; [done | apply zfill_digits]. Qed.

Lemma strftime_run_id_no_colon d : no_char ":" (strftime_run_id d) = true.
Proof.
  unfold strftime_run_id. rewrite !no_char_app, !zfill_no_colon. done.
Qed.

(** Two texts joined by a separator that the first does not hold can be
    taken apart again. *)
Lemma key_parts c a a' b b' :
  no_char c a = true → no_char c a' = true →
  a +:+ String c b = a' +:+ String c b' → a = a' ∧ b = b'.
Proof.
  revert a'. induction a as [|x a IH]; intros [|x' a'];
    rewrite ?append_nil, ?append_cons; simpl.
  - by intros _ _ [= ->].
  - intros _ [Hx _]%andb_true_iff [= <- _]. by rewrite Ascii.eqb_refl in Hx.
  - intros [Hx _]%andb_true_iff _ [= -> _]. by rewrite Ascii.eqb_refl in Hx.
  - intros [_ Ha]%andb_true_iff [_ Ha']%andb_true_iff [= -> H].
    by destruct (IH _ Ha Ha' H) as [-> ->].
Qed.

Lemma contains_empty s : contains "" s = true.
Proof. by destruct s. Qed.

(** Where a record of one test directory comes from. *)
Lemma test_results_elem bench source tag test r :
  r ∈ test_results bench source tag test →
  ∃ d file test_name,
    estimates_path d source = Some file ∧
    read_estimates file bench test_name source tag = Returned r.
Proof.
  destruct test as [test_dir_name test_dir].
  destruct (estimates_path test_dir source) as [f|] eqn:Hpath.
  - unfold test_results. rewrite Hpath.
    destruct (is_dir test_dir); cbn [negb]; [| by intros ?%elem_of_nil].
    rewrite bool_decide_eq_true_2 by eauto.
    intros (file & [= <-] & Hr)%process_estimates_file_elem. eauto.
  - intros Hr. apply test_results_parameterized in Hr; [| done].
    destruct Hr as (? & param_dir & file & _ & Hfile & Hr). eauto.
Qed.

Lemma benchmark_results_elem source bench_filter tag name bench_dir r :
  r ∈ benchmark_results source bench_filter tag (name, bench_dir) →
  is_dir bench_dir = true ∧ selected bench_filter name = true ∧
  ∃ d file test_name,
    estimates_path d source = Some file ∧
    read_estimates file name test_name source tag = Returned r.
Proof.
  unfold benchmark_results.
  destruct (is_dir bench_dir); simpl; [| by intros ?%elem_of_nil].
  destruct bench_filter as [f|]; simpl.
  - destruct (String.eqb_spec f "") as [-> | _]; simpl.
    + intros ([] & _ & Hr)%list_elem_of_In%in_flat_map.
      apply list_elem_of_In, test_results_elem in Hr. by rewrite contains_empty.
    + destruct (contains f name); simpl; [| by intros ?%elem_of_nil].
      intros ([] & _ & Hr)%list_elem_of_In%in_flat_map.
      by apply list_elem_of_In, test_results_elem in Hr.
  - intros ([] & _ & Hr)%list_elem_of_In%in_flat_map.
    by apply list_elem_of_In, test_results_elem in Hr.
Qed.

Lemma parse_benchmark_results_elem criterion_dir source bench_filter tag rs r :
  parse_benchmark_results criterion_dir source bench_filter tag = Returned rs →
  r ∈ rs →
  ∃ mtime entries name bench_dir d file test_name,
    criterion_dir = Some (Dir mtime entries) ∧
    (name, bench_dir) ∈ entries ∧
    is_dir bench_dir = true ∧ selected bench_filter name = true ∧
    estimates_path d source = Some file ∧
    read_estimates file name test_name source tag = Returned r.
Proof.
  destruct criterion_dir as [[|mtime entries]|]; simpl; intros [= <-];
    [| by intros ?%elem_of_nil].
  intros ([name bench_dir] & Hin & Hr)%list_elem_of_In%in_flat_map.
  apply list_elem_of_In in Hin, Hr.
  apply benchmark_results_elem in Hr as (? & ? & d & file & test_name & ? & ?).
  by exists mtime, entries, name, bench_dir, d, file, test_name.
Qed.

(** X1.  Among the records of one discovery, the identity key tells apart
    every two records that differ in run id or in test name: the run id
    holds no colon, so the key splits in one way only. *)
Theorem discovered_keys_identify criterion_dir source bench_filter tag rs r1 r2 :
  parse_benchmark_results criterion_dir source bench_filter tag = Returned rs →
  r1 ∈ rs → r2 ∈ rs →
  result_key r1 = result_key r2 →
  Result.run_id r1 = Result.run_id r2 ∧ Result.test_name r1 = Result.test_name r2.
Proof.
  intros Hrs H1 H2.
  destruct (parse_benchmark_results_elem _ _ _ _ _ _ Hrs H1)
    as (_ & _ & ? & _ & _ & f1 & ? & _ & _ & _ & _ & _ & E1).
  destruct (parse_benchmark_results_elem _ _ _ _ _ _ Hrs H2)
    as (_ & _ & ? & _ & _ & f2 & ? & _ & _ & _ & _ & _ & E2).
  apply read_estimates_returned in E1 as (? & ? & ? & ? & _ & ->).
  apply read_estimates_returned in E2 as (? & ? & ? & ? & _ & ->).
  unfold result_key. cbn [Result.run_id Result.test_name].
  apply key_parts; apply strftime_run_id_no_colon.
Qed.

Lemma discovered_keys_identify_witness :
  let tests :=
    Dir noon [("insert",
               Dir noon [("100", Dir noon [with_source "new"
                                             (estimates (PInt 500) (PInt 520))])])] in
  let tree := Dir noon [("compare_get", tests); ("compare_set", tests)] in
  let second :=
    {| Result.run_id := "20240101_120000"; Result.benchmark := "compare_set";
       Result.test_name := "insert/100"; Result.operation := "insert";
       Result.size := "100"; Result.median_ns := PInt 500;
       Result.mean_ns := PInt 520; Result.throughput_ops_sec := 200000000;
       Result.throughput_pretty := "200.00 Mops/s";
       Result.timestamp := "2024-01-01T12:00:00"; Result.tag := "" |} in
  parse_benchmark_results (Some tree) "new" None "" =
    Returned [first_record; second] ∧
  Result.run_id first_record = Result.run_id second ∧
  Result.test_name first_record = Result.test_name second.
Proof.
  intros tests tree second. split; [vm_compute; reflexivity |].
  apply (discovered_keys_identify (Some tree) "new" None "" [first_record; second]);
    [vm_compute; reflexivity | by left | by right; left | reflexivity].
Defined.

Lemma filter_all {A} (p : A → bool) (l : list A) :
  (∀ x, x ∈ l → p x = true) → List.filter p l = l.
Proof.
  induction l as [|x l IH]; intros Hall; simpl; [done |].
  rewrite Hall by left. f_equal. apply IH. intros y Hy. apply Hall. by right.
Qed.

Lemma filter_none {A} (p : A → bool) (l : list A) :
  (∀ x, x ∈ l → p x = false) → List.filter p l = [].
Proof.
  induction l as [|x l IH]; intros Hall; simpl; [done |].
  rewrite Hall by left. apply IH. intros y Hy. apply Hall. by right.
Qed.

Lemma benchmark_results_benchmark source bench_filter tag name bench_dir r :
  r ∈ benchmark_results source bench_filter tag (name, bench_dir) →
  Result.benchmark r = name.
Proof.
  intros (_ & _ & ? & ? & ? & _ & Hr)%benchmark_results_elem.
  by apply read_estimates_returned in Hr as (? & ? & ? & ? & _ & ->).
Qed.

Lemma benchmark_results_filter source f tag bench :
  benchmark_results source (Some f) tag bench =
  List.filter (λ r, contains f (Result.benchmark r))
    (benchmark_results source None tag bench).
Proof.
  destruct bench as [name bench_dir].
  pose proof (benchmark_results_benchmark source None tag name bench_dir) as Hname.
  revert Hname. unfold benchmark_results.
  destruct (is_dir bench_dir); cbn [negb]; [| done].
  intros Hname. destruct (String.eqb_spec f "") as [-> | _]; cbn [negb andb].
  - symmetry. apply filter_all. intros r _. apply contains_empty.
  - destruct (contains f name) eqn:Hf; cbn [negb]; symmetry.
    + apply filter_all. intros r Hr. by rewrite (Hname r Hr).
    + apply filter_none. intros r Hr. by rewrite (Hname r Hr).
Qed.

(** X2.  A benchmark filter does nothing but select: discovery under a
    filter returns the records of the unfiltered discovery whose benchmark
    name holds the filter text, in the same order; the empty filter
    selects every record. *)
Theorem bench_filter_selects criterion_dir source f tag :
  parse_benchmark_results criterion_dir source (Some f) tag =
  List.filter (λ r, contains f (Result.benchmark r)) <$>
    parse_benchmark_results criterion_dir source None tag.
Proof.
  destruct criterion_dir as [[|mtime entries]|]; simpl; [done | | done].
  f_equal. induction entries as [|bench entries IH]; [done |].
  cbn [flat_map]. by rewrite List.filter_app, <- IH, benchmark_results_filter.
Qed.

Lemma estimates_path_is_dir d source file :
  estimates_path d source = Some file → is_dir d = true.
Proof. by destruct d. Qed.

Lemma test_results_located bench source tag test_dir_name test_dir r :
  r ∈ test_results bench source tag (test_dir_name, test_dir) →
  is_dir test_dir = true ∧
  ∃ file,
    estimates_of source test_dir_name test_dir (Result.test_name r) file ∧
    read_estimates file bench (Result.test_name r) source tag = Returned r.
Proof.
  destruct (estimates_path test_dir source) as [f|] eqn:Hpath.
  - unfold test_results. rewrite Hpath.
    rewrite (estimates_path_is_dir _ _ _ Hpath). cbn [negb].
    rewrite bool_decide_eq_true_2 by eauto.
    intros (file & [= <-] & Hr)%process_estimates_file_elem.
    destruct (read_estimates_names _ _ _ _ _ _ Hr) as (Hname & _).
    split; [done |]. exists f. rewrite Hname. split; [by left | done].
  - intros Hr. assert (is_dir test_dir = true) as Hdir.
    { revert Hr. unfold test_results. destruct (is_dir test_dir); [done |].
      by intros ?%elem_of_nil. }
    apply test_results_parameterized in Hr; [| done].
    destruct Hr as (param_name & param_dir & file & Hin & Hfile & Hr).
    destruct (read_estimates_names _ _ _ _ _ _ Hr) as (Hname & _).
    split; [done |]. exists file. rewrite Hname. split; [| done].
    right. split; [done |]. exists param_name, param_dir.
    by rewrite (estimates_path_is_dir _ _ _ Hfile).
Qed.

Lemma benchmark_results_located source bench_filter tag name bench_dir r :
  r ∈ benchmark_results source bench_filter tag (name, bench_dir) →
  ∃ test_dir_name test_dir file,
    (test_dir_name, test_dir) ∈ iterdir bench_dir ∧
    is_dir test_dir = true ∧
    estimates_of source test_dir_name test_dir (Result.test_name r) file ∧
    read_estimates file name (Result.test_name r) source tag = Returned r.
Proof.
  assert (∀ l, In r (flat_map (test_results name source tag) l) →
               ∃ test_dir_name test_dir file,
                 (test_dir_name, test_dir) ∈ l ∧
                 is_dir test_dir = true ∧
                 estimates_of source test_dir_name test_dir (Result.test_name r) file ∧
                 read_estimates file name (Result.test_name r) source tag = Returned r)
    as Hfound.
  { intros l ([test_dir_name test_dir] & Hin & Hr)%in_flat_map.
    apply list_elem_of_In in Hin, Hr.
    apply test_results_located in Hr as (Hdir & file & Hof & Hr).
    by exists test_dir_name, test_dir, file. }
  unfold benchmark_results.
  destruct (is_dir bench_dir); cbn [negb]; [| by intros ?%elem_of_nil].
  destruct bench_filter as [f|].
  - destruct (negb (String.eqb f "") && negb (contains f name));
      [by intros ?%elem_of_nil |].
    intros Hr%list_elem_of_In. by apply Hfound.
  - intros Hr%list_elem_of_In. by apply Hfound.
Qed.

(** X3.  Every discovered record is read from a file [source/estimates.json]
    at its place in the tree: under the criterion directory there is a
    directory that passes the filter, whose name is the record's benchmark;
    under it a test directory; and the file is that of the test directory
    itself, the record's test name being the directory's, or, when the test
    directory has none, that of one of its parameter directories, the test
    name being the two names joined by a slash.  The record's tag is the
    caller's, and its run id and its timestamp are two renderings of one
    instant, the modification time of that file. *)
Theorem discovered_record_provenance criterion_dir source bench_filter tag rs r :
  parse_benchmark_results criterion_dir source bench_filter tag = Returned rs →
  r ∈ rs →
  ∃ mtime entries bench_dir test_dir_name test_dir file,
    criterion_dir = Some (Dir mtime entries) ∧
    (Result.benchmark r, bench_dir) ∈ entries ∧
    is_dir bench_dir = true ∧
    selected bench_filter (Result.benchmark r) = true ∧
    (test_dir_name, test_dir) ∈ iterdir bench_dir ∧
    is_dir test_dir = true ∧
    estimates_of source test_dir_name test_dir (Result.test_name r) file ∧
    read_estimates file (Result.benchmark r) (Result.test_name r) source tag
      = Returned r ∧
    Result.run_id r = strftime_run_id (getmtime file) ∧
    Result.timestamp r = isoformat (getmtime file) ∧
    Result.tag r = tag.
Proof.
  destruct criterion_dir as [[|mtime entries]|]; simpl; intros [= <-];
    [| by intros ?%elem_of_nil].
  intros ([name bench_dir] & Hin & Hr)%list_elem_of_In%in_flat_map.
  apply list_elem_of_In in Hin, Hr.
  destruct (benchmark_results_elem _ _ _ _ _ _ Hr) as (Hdir & Hselected & _).
  destruct (benchmark_results_located _ _ _ _ _ _ Hr)
    as (test_dir_name & test_dir & file & Htest & Htest_dir & Hof & Hread).
  assert (Result.benchmark r = name ∧
          Result.run_id r = strftime_run_id (getmtime file) ∧
          Result.timestamp r = isoformat (getmtime file) ∧
          Result.tag r = tag) as (Hname & Hrun & Htime & Htag).
  { by apply read_estimates_returned in Hread as (? & ? & ? & ? & _ & ->). }
  exists mtime, entries, bench_dir, test_dir_name, test_dir, file.
  rewrite Hname. by split_and!.
Qed.

Lemma discovered_record_provenance_witness :
  let r := sample "20240101_120000" "insert/100" "nightly" in
  ∃ mtime entries bench_dir test_dir_name test_dir file,
    Some criterion = Some (Dir mtime entries) ∧
    (Result.benchmark r, bench_dir) ∈ entries ∧
    is_dir bench_dir = true ∧
    selected (Some "get") (Result.benchmark r) = true ∧
    (test_dir_name, test_dir) ∈ iterdir bench_dir ∧
    is_dir test_dir = true ∧
    estimates_of "new" test_dir_name test_dir (Result.test_name r) file ∧
    read_estimates file (Result.benchmark r) (Result.test_name r) "new" "nightly"
      = Returned r ∧
    Result.run_id r = strftime_run_id (getmtime file) ∧
    Result.timestamp r = isoformat (getmtime file) ∧
    Result.tag r = "nightly".
Proof.
  apply (discovered_record_provenance (Some criterion) "new" (Some "get") "nightly"
           [sample "20240101_120000" "insert/100" "nightly"]);
    [vm_compute; reflexivity | by left].
Defined.

(** ** The sink across calls *)

Lemma keys_app a b : keys (a ++ b) = (keys a ++ keys b)%list.
Proof. apply map_app. Qed.

Lemma fresh_app known a b :
  fresh known (a ++ b) =
  (fresh known a ++ fresh (list_to_set (keys a) ∪ known) b)%list.
Proof.
  revert known. induction a as [|r a IH]; intros known.
  - simpl. f_equal. set_solver.
  - cbn [app fresh keys map list_to_set]. fold (keys a). case_bool_decide as Hin.
    + by rewrite IH, union_singleton_known.
    + by rewrite IH, union_singleton_swap.
Qed.

Lemma fresh_disjoint known results :
  list_to_set (keys (fresh known results)) ## known.
Proof.
  intros k [r [-> Hr]]%elem_of_list_to_set%list_elem_of_fmap.
  by apply fresh_not_known in Hr.
Qed.

Lemma terminated_app a b : terminated (a ++ b) = terminated a && terminated b.
Proof. apply forallb_app. Qed.

Lemma terminated_rows rows : terminated (map Row rows) = true.
Proof. by induction rows. Qed.

(** X4.  The sink only ever appends: the content the destination held is
    left as it was, and what follows it is whole lines, the header if the
    destination was missing or empty and then one line per record the call
    reports; a call that reports zero leaves the destination as it was.
    When every line of the old content is ended by a terminator, so is
    every line afterwards, the old lines are the first lines and the number
    of lines grows by the number added.  After open text, the first line
    added continues that text instead. *)
Theorem export_to_csv_append_only float_repr results csv_path existing_ids :
  let e := export_to_csv float_repr results csv_path existing_ids in
  let old := default [] csv_path in
  let new := default [] (destination e) in
  (returned e = 0%nat → destination e = csv_path) ∧
  (∃ added,
     new = (old ++ map Row added)%list ∧
     length added =
       (returned e +
        (if (0 <? returned e)%nat && absent_or_empty csv_path then 1 else 0))%nat ∧
     (∀ text lines, old = (lines ++ [Open text])%list →
        new = (lines ++ Open text :: map Row added)%list)) ∧
  (terminated old = true →
   terminated new = true ∧ old `prefix_of` new ∧
   length new =
     (length old + returned e +
      (if (0 <? returned e)%nat && absent_or_empty csv_path then 1 else 0))%nat).
Proof.
  cbv zeta. rewrite export_to_csv_effect. cbv zeta. cbn [returned destination].
  assert (∃ added,
            default [] match fresh existing_ids results with
                       | [] => csv_path
                       | _ => Some (default [] csv_path ++
                                    (if absent_or_empty csv_path
                                     then [Row fieldnames] else []) ++
                                    map (λ r, Row (columns float_repr r))
                                      (fresh existing_ids results))%list
                       end = (default [] csv_path ++ map Row added)%list ∧
            length added =
              (length (fresh existing_ids results) +
               (if (0 <? length (fresh existing_ids results))%nat &&
                   absent_or_empty csv_path then 1 else 0))%nat)
    as (added & Hnew & Hlength).
  { destruct (fresh existing_ids results) as [|r rs].
    - exists []. by rewrite app_nil_r.
    - change (default [] (Some ?l)) with l. rewrite map_Row_columns.
      destruct (absent_or_empty csv_path).
      + exists (fieldnames :: map (columns float_repr) (r :: rs)).
        split; [done |]. cbn [length]. rewrite length_map. simpl. lia.
      + exists (map (columns float_repr) (r :: rs)).
        split; [done |]. rewrite length_map. simpl. lia. }
  split_and!.
  - by destruct (fresh existing_ids results).
  - exists added. split_and!; [done | done |].
    intros text lines Hold. rewrite Hnew, Hold, <- app_assoc. done.
  - intros Hold. rewrite Hnew, terminated_app, Hold, terminated_rows.
    split_and!; [done | by eexists |].
    rewrite length_app, length_map, Hlength. lia.
Qed.

(** X5.  The key set handed to the sink comes back as the old keys and the
    keys of the records just written, none lost and none counted twice:
    its size grows by exactly the number the call returns, which is what
    the total printed at the end of a run relies on. *)
Theorem known_ids_grow_by_returned float_repr results csv_path existing_ids :
  let e := export_to_csv float_repr results csv_path existing_ids in
  existing_ids ⊆ known_ids e ∧
  size (known_ids e) = (size existing_ids + returned e)%nat.
Proof.
  cbv zeta. rewrite export_to_csv_effect. cbv zeta. cbn [returned known_ids].
  split; [set_solver |].
  rewrite <- fresh_keys, size_union by apply fresh_disjoint.
  rewrite size_list_to_set by apply fresh_NoDup.
  unfold keys. rewrite length_map. lia.
Qed.

(** X6.  Exporting a batch in one call and exporting it in two pieces, the
    second call given the destination and the key set the first one left,
    come to the same: the same destination, the same key set, and the
    returned counts add up. *)
Theorem export_to_csv_in_pieces float_repr a b csv_path existing_ids :
  let whole := export_to_csv float_repr (a ++ b) csv_path existing_ids in
  let first := export_to_csv float_repr a csv_path existing_ids in
  let second := export_to_csv float_repr b (destination first) (known_ids first) in
  destination whole = destination second ∧
  known_ids whole = known_ids second ∧
  returned whole = (returned first + returned second)%nat.
Proof.
  cbv zeta. rewrite !export_to_csv_effect. cbv zeta.
  cbn [returned destination known_ids].
  rewrite fresh_app, keys_app, list_to_set_app_L.
  split; [| split; [set_solver | by rewrite length_app]].
  destruct (fresh existing_ids a) as [|r rs]; [done |].
  destruct (fresh (list_to_set (keys a) ∪ existing_ids) b) as [|r' rs'].
  { by rewrite app_nil_r. }
  rewrite append_populated by done. change (default [] (Some ?l)) with l.
  cbn [app map]. by rewrite map_app, <- !app_assoc.
Qed.

(** X7.  Within one session the sink is idempotent: a second call with the
    same records, the destination and the key set of the first, writes
    nothing, returns zero and changes neither. *)
Theorem export_to_csv_again float_repr results csv_path existing_ids :
  let first := export_to_csv float_repr results csv_path existing_ids in
  let second :=
    export_to_csv float_repr results (destination first) (known_ids first) in
  returned second = 0%nat ∧
  destination second = destination first ∧
  known_ids second = known_ids first.
Proof.
  cbv zeta. rewrite (export_to_csv_effect _ _ (destination _)). cbv zeta.
  cbn [returned destination known_ids].
  rewrite (export_to_csv_effect _ results csv_path). cbv zeta.
  cbn [returned destination known_ids].
  rewrite fresh_all_known; [split_and!; [done | done | set_solver] |].
  intros r Hr. apply elem_of_union_l, elem_of_list_to_set, list_elem_of_fmap.
  by exists r.
Qed.

(** ** Estimates without numbers *)

(** X8.  A file whose object holds no median and no mean estimate is not
    skipped: the defaults stand in, and it yields one record with both
    times 0, throughput 0.0 and the display "N/A". *)
Theorem missing_estimates_recorded_as_zero
    mtime members bench test_name source tag :
  lacks_estimate "median" members = true →
  lacks_estimate "mean" members = true →
  ∃ r,
    process_estimates_file (Some (File mtime (Some (JObject members))))
      bench test_name source tag = [r] ∧
    Result.test_name r = test_name ∧
    Result.median_ns r = PInt 0 ∧ Result.mean_ns r = PInt 0 ∧
    Result.throughput_ops_sec r = 0%float ∧ Result.throughput_pretty r = "N/A".
Proof.
  unfold lacks_estimate, process_estimates_file, read_estimates.
  intros Hmedian Hmean.
  cbn -[assoc size_n isoformat get_run_id_from_file split].
  destruct (assoc "median" members) as [[| | | | |median]|]; try done;
    destruct (assoc "mean" members) as [[| | | | |mean]|]; try done;
    cbn -[assoc size_n isoformat get_run_id_from_file split];
    repeat match goal with
           | H : match ?x with None => _ | Some _ => _ end = true |- _ =>
               destruct x; [done |]
           end;
    cbn -[size_n isoformat get_run_id_from_file split];
    eexists; repeat split.
Qed.

Lemma missing_estimates_recorded_as_zero_witness :
  ∃ r,
    process_estimates_file
      (Some (File noon (Some (JObject [("median", JObject [])]))))
      "compare_get" "insert" "new" "" = [r] ∧
    Result.test_name r = "insert" ∧
    Result.median_ns r = PInt 0 ∧ Result.mean_ns r = PInt 0 ∧
    Result.throughput_ops_sec r = 0%float ∧ Result.throughput_pretty r = "N/A".
Proof.
  apply (missing_estimates_recorded_as_zero noon [("median", JObject [])]);
    reflexivity.
Defined.

(** ** What the throughput calculator can raise *)

Lemma truediv_raised a ns e :
  eq_zero ns = false → truediv a ns = Raised e →
  e = OverflowError ∧ ∀ f, ns = PFloat f → float_of_int a = Raised OverflowError.
Proof.
  destruct ns as [z|f]; simpl; intros Hz.
  - unfold int_truediv. rewrite Hz. case_match; [| done].
    by intros [= <-].
  - rewrite Hz. unfold float_of_int. case_match; simpl; [| done].
    intros [= <-]. split; [done |]. by intros ? _.
Qed.

(** X9.  The throughput calculators raise nothing but [OverflowError],
    never a division by zero; for a float time they raise only when the
    count times 1e9 is too large for a float, whatever the time is; and
    the calculator of the report script raises exactly when the one of the
    export script does. *)
Theorem format_throughput_raises_overflow_only ns n e :
  format_throughput ns n = Raised e →
  e = OverflowError ∧
  eq_zero ns = false ∧
  (∀ f, ns = PFloat f → float_of_int (n * 1000000000) = Raised OverflowError) ∧
  ParseBenchResults.format_throughput ns n = Raised e.
Proof.
  intros He. rewrite format_throughput_formatters_agree, He.
  revert He. unfold format_throughput.
  destruct (eq_zero ns) eqn:Hz; [done |].
  destruct (truediv (n * 1000000000) ns) as [v|e'] eqn:Hdiv; [done |].
  simpl. intros [= <-].
  by destruct (truediv_raised _ _ _ Hz Hdiv).
Qed.

Lemma format_throughput_raises_overflow_only_witness :
  format_throughput (PFloat 2) (10 ^ 300) = Raised OverflowError ∧
  float_of_int (10 ^ 300 * 1000000000) = Raised OverflowError ∧
  ParseBenchResults.format_throughput (PFloat 2) (10 ^ 300) = Raised OverflowError.
Proof.
  assert (format_throughput (PFloat 2) (10 ^ 300) = Raised OverflowError) as H
    by (vm_compute; reflexivity).
  destruct (format_throughput_raises_overflow_only _ _ _ H) as (_ & _ & Hf & Hp).
  split; [exact H |]. split; [exact (Hf 2%float eq_refl) | exact Hp].
Defined.

(** ** The two scripts on one file *)

Lemma read_entry_returned f bench test_name source e :
  Report.read_entry f bench test_name source = Returned e →
  ∃ data median ns,
    load f = Returned data ∧
    get "median" (JObject []) data = Returned median ∧
    get "point_estimate" (JNumber (PInt 0)) median = Returned (Entry.median_ns e) ∧
    as_number (Entry.median_ns e) = Returned ns ∧
    Report.div_int ns 1000 = Returned (Entry.median_us e) ∧
    Report.div_int ns 1000000 = Returned (Entry.median_ms e) ∧
    Entry.benchmark e = bench ∧ Entry.test e = test_name ∧
    Entry.operation e = segment test_name ∧
    Entry.size e = match after_slash test_name with
                   | Some rest => segment rest
                   | None => "N/A"
                   end ∧
    Entry.timestamp e = isoformat (getmtime f) ∧
    Entry.source e = source.
Proof.
  unfold Report.read_entry. intros H.
  apply bind_returned in H as (data & Hdata & H).
  apply bind_returned in H as (median & Hmedian & H).
  apply bind_returned in H as (median_ns & Hmedian_ns & H).
  apply bind_returned in H as (mean & _ & H).
  apply bind_returned in H as (mean_ns & _ & H).
  apply bind_returned in H as (ns & Hns & H).
  apply bind_returned in H as (us & Hus & H).
  apply bind_returned in H as (ms & Hms & H).
  injection H as <-. cbn [Entry.benchmark Entry.test Entry.operation Entry.size
    Entry.median_ns Entry.median_us Entry.median_ms Entry.timestamp Entry.source].
  exists data, median, ns. rewrite split_segment.
  split_and!; try done. by destruct (after_slash test_name) as [rest|];
    [rewrite split_segment |].
Qed.

(** X10.  When both scripts read the same estimates file under the same
    names, they agree on what they share: benchmark, test name, operation,
    size and timestamp are the same, the export's median is the report's
    rounded to two decimals, and the throughput text in the export's record
    is the one the report prints for that entry. *)
Theorem scripts_agree_on_a_file f bench test_name source source' tag r e :
  read_estimates f bench test_name source tag = Returned r →
  Report.read_entry f bench test_name source' = Returned e →
  Entry.benchmark e = Result.benchmark r ∧
  Entry.test e = Result.test_name r ∧
  Entry.operation e = Result.operation r ∧
  Entry.size e = Result.size r ∧
  Entry.timestamp e = Result.timestamp r ∧
  ∃ ns,
    as_number (Entry.median_ns e) = Returned ns ∧
    Result.median_ns r = round_2 ns ∧
    ParseBenchResults.format_throughput ns (size_n (Entry.size e)) =
      Returned (Result.throughput_pretty r).
Proof.
  intros Hr He.
  destruct (read_estimates_names _ _ _ _ _ _ Hr) as (Htest & Hop & Hsize).
  apply read_entry_returned in He
    as (data & median & ns & Hdata & Hmedian & Hmedian_ns & Hns & _ & _ &
        -> & -> & -> & -> & -> & _).
  rewrite Htest, Hop, Hsize. split_and!; try done.
  { by apply read_estimates_returned in Hr as (? & ? & ? & ? & _ & ->). }
  { by apply read_estimates_returned in Hr as (? & ? & ? & ? & _ & ->). }
  exists ns. split; [done |]. rewrite <- Hsize. clear Htest Hop Hsize.
  unfold read_estimates in Hr.
  apply bind_returned in Hr as (data' & Hdata' & Hr).
  apply bind_returned in Hr as (median' & Hmedian' & Hr).
  apply bind_returned in Hr as (median_ns' & Hmedian_ns' & Hr).
  apply bind_returned in Hr as (mean & _ & Hr).
  apply bind_returned in Hr as (mean_ns & _ & Hr).
  apply bind_returned in Hr as ([v pretty] & Hthroughput & Hr).
  apply bind_returned in Hthroughput as (ns' & Hns' & Hthroughput).
  apply bind_returned in Hr as (ns'' & Hns'' & Hr).
  apply bind_returned in Hr as (mean_ns' & _ & Hr).
  rewrite Hdata in Hdata'. injection Hdata' as <-.
  rewrite Hmedian in Hmedian'. injection Hmedian' as <-.
  rewrite Hmedian_ns in Hmedian_ns'. injection Hmedian_ns' as <-.
  rewrite Hns in Hns', Hns''. injection Hns' as <-. injection Hns'' as <-.
  injection Hr as <-. cbn [Result.median_ns Result.size Result.throughput_pretty].
  split; [done |].
  rewrite format_throughput_formatters_agree.
  cbn [Result.size] in Hthroughput. by rewrite Hthroughput.
Qed.

Lemma scripts_agree_on_a_file_witness :
  ∃ e,
    Report.read_entry (estimates (PInt 500) (PInt 520)) "compare_get" "insert/100" "base"
      = Returned e ∧
    Entry.size e = Result.size first_record ∧
    ParseBenchResults.format_throughput (PInt 500) (size_n (Entry.size e)) =
      Returned "200.00 Mops/s".
Proof.
  eexists. split; [reflexivity |].
  destruct (scripts_agree_on_a_file (estimates (PInt 500) (PInt 520))
              "compare_get" "insert/100" "new" "base" "" first_record _
              ltac:(vm_compute; reflexivity) eq_refl)
    as (_ & _ & _ & Hsize & _ & ns & Hns & _ & Hpretty).
  split; [exact Hsize |].
  injection Hns as <-. exact Hpretty.
Defined.

(** * The report script *)

(** ** Discovery *)

Lemma test_entries_unfold bench name test_dir :
  Report.test_entries bench (name, test_dir) =
  if is_dir test_dir then
    match estimates_path test_dir "base" with
    | Some base =>
        match Report.read_entry base bench name "base" with
        | Returned e => [e]
        | Raised _ => []
        end
    | None =>
        match estimates_path test_dir "new" with
        | Some new =>
            match Report.read_entry new bench name "new" with
            | Returned e => [e]
            | Raised _ => []
            end
        | None => []
        end
    end
  else [].
Proof.
  unfold Report.test_entries. destruct (is_dir test_dir); cbn [negb]; [| done].
  destruct (estimates_path test_dir "base") as [base|]; [done |].
  by rewrite bool_decide_eq_false_2 by by intros [? ?].
Qed.

(** X11.  For one test directory the report script reads one file at most:
    [base/estimates.json] whenever it exists, and [new/estimates.json] only
    when it does not.  A [base] file that cannot be read gives no entry,
    whatever [new] holds; the entry's [source] names the file it is from. *)
Theorem base_preferred_over_new bench name test_dir :
  let found := Report.test_entries bench (name, test_dir) in
  (length found ≤ 1)%nat ∧
  (∀ base,
     estimates_path test_dir "base" = Some base →
     found = match Report.read_entry base bench name "base" with
             | Returned e => [e]
             | Raised _ => []
             end ∧
     ∀ e, e ∈ found →
          Entry.source e = "base" ∧ Entry.timestamp e = isoformat (getmtime base)) ∧
  (∀ new,
     is_dir test_dir = true →
     estimates_path test_dir "base" = None →
     estimates_path test_dir "new" = Some new →
     found = match Report.read_entry new bench name "new" with
             | Returned e => [e]
             | Raised _ => []
             end ∧
     ∀ e, e ∈ found →
          Entry.source e = "new" ∧ Entry.timestamp e = isoformat (getmtime new)).
Proof.
  cbv zeta. rewrite test_entries_unfold. split_and!.
  - repeat case_match; simpl; lia.
  - intros base Hbase. rewrite (estimates_path_is_dir _ _ _ Hbase), Hbase.
    split; [done |].
    destruct (Report.read_entry base bench name "base") as [e'|] eqn:He;
      [| by intros ? ?%elem_of_nil].
    intros e ->%list_elem_of_singleton.
    by apply read_entry_returned in He
      as (? & ? & ? & _ & _ & _ & _ & _ & _ & _ & _ & _ & _ & ? & ?).
  - intros new -> -> ->. split; [done |].
    destruct (Report.read_entry new bench name "new") as [e'|] eqn:He;
      [| by intros ? ?%elem_of_nil].
    intros e ->%list_elem_of_singleton.
    by apply read_entry_returned in He
      as (? & ? & ? & _ & _ & _ & _ & _ & _ & _ & _ & _ & _ & ? & ?).
Qed.

Lemma base_preferred_over_new_witness :
  ∃ e,
    Report.test_entries "compare_get" ("insert", base_and_new) = [e] ∧
    Entry.source e = "base" ∧ Entry.median_ns e = JNumber (PInt 500) ∧
    Report.test_entries "compare_get"
      ("insert", Dir noon [ with_source "base" (File noon None);
                            with_source "new" (estimates (PInt 250) (PInt 260)) ])
      = [].
Proof.
  destruct (base_preferred_over_new "compare_get" "insert" base_and_new)
    as (_ & Hbase & _).
  destruct (Hbase (estimates (PInt 500) (PInt 520)) eq_refl) as [Hfound Hsource].
  eexists. split; [exact Hfound |].
  split; [apply Hsource; rewrite Hfound; by left |].
  split; [reflexivity |].
  destruct (base_preferred_over_new "compare_get" "insert"
              (Dir noon [ with_source "base" (File noon None);
                          with_source "new" (estimates (PInt 250) (PInt 260)) ]))
    as (_ & Hbroken & _).
  exact (proj1 (Hbroken (File noon None) eq_refl)).
Defined.




(** ** CSV export of the report script *)

Lemma writerows_refused fieldnames r rows file :
  Report.dict_to_list fieldnames r = Raised ValueError →
  Report.writerows fieldnames (r :: rows) file = (file, Raised ValueError).
Proof. intros H. cbn [Report.writerows]. by rewrite H. Qed.

Lemma to_dict_refused cell e :
  Report.dict_to_list Report.plain_fieldnames (Report.to_dict cell e)
    = Raised ValueError.
Proof. reflexivity. Qed.

Lemma to_dict_stamped_refused cell now e :
  Report.dict_to_list Report.history_fieldnames
    (Report.dict_set "timestamp" now (Report.to_dict cell e)) = Raised ValueError.
Proof. reflexivity. Qed.

(** X13.  The CSV export cannot write what the discoverer returns: every
    entry carries the key "source", which is in neither column list, so for
    any non-empty list of entries the writer raises [ValueError] on the
    first row.  By then the file is opened: it is left holding the header
    alone, or, when appending to an existing file, as it was. *)
Theorem export_csv_refuses_entries cell now es output_path append :
  es ≠ [] →
  let call := Report.export_csv now (map (Report.to_dict cell) es) output_path append in
  call.2 = Raised ValueError ∧
  call.1.2 =
    Some (if append && bool_decide (is_Some output_path)
          then default [] output_path
          else [Row (if append then Report.history_fieldnames
                     else Report.plain_fieldnames)]).
Proof.
  destruct es as [|e es]; [done |]. intros _. cbv zeta.
  unfold Report.export_csv. cbn [map].
  destruct append; cbn [andb negb].
  - rewrite writerows_refused by apply to_dict_stamped_refused.
    by destruct (bool_decide (is_Some output_path)).
  - by rewrite writerows_refused by apply to_dict_refused.
Qed.

Lemma export_csv_refuses_entries_witness :
  ∃ e,
    Report.test_entries "compare_get" ("insert", base_and_new) = [e] ∧
    (Report.export_csv "2024-01-02T00:00:00" [Report.to_dict (λ _, "") e] None false).2
      = Raised ValueError ∧
    (Report.export_csv "2024-01-02T00:00:00" [Report.to_dict (λ _, "") e] None false).1.2
      = Some [Row Report.plain_fieldnames].
Proof.
  eexists. split; [reflexivity |].
  match goal with
  | |- (Report.export_csv ?now [Report.to_dict ?cell ?e] _ _).2 = _ ∧ _ =>
      exact (export_csv_refuses_entries cell now [e] None false ltac:(done))
  end.
Defined.

Lemma dict_set_keys (fieldnames : list string) key v r :
  key ∈ fieldnames →
  Forall (λ kv : string * string, kv.1 ∈ fieldnames) r →
  Forall (λ kv : string * string, kv.1 ∈ fieldnames) (Report.dict_set key v r).
Proof.
  intros Hkey. induction 1 as [|[k x] r Hk Hr IH]; cbn [Report.dict_set].
  - by constructor.
  - destruct (String.eqb k key); constructor; done.
Qed.

Lemma dict_set_assoc key v r : assoc key (Report.dict_set key v r) = Some v.
Proof.
  induction r as [|[k x] r IH]; cbn [Report.dict_set assoc].
  - by rewrite String.eqb_refl.
  - destruct (String.eqb k key) eqn:Hk; cbn [assoc]; by rewrite Hk.
Qed.

Lemma dict_to_list_fitting (fieldnames : list string) r :
  Forall (λ kv : string * string, kv.1 ∈ fieldnames) r →
  Report.dict_to_list fieldnames r =
  Returned (map (λ key, default "" (assoc key r)) fieldnames).
Proof.
  intros Hr. unfold Report.dict_to_list.
  assert (forallb (λ kv : string * string, bool_decide (kv.1 ∈ fieldnames)) r = true)
    as ->; [| done].
  apply forallb_forall. intros kv Hkv%list_elem_of_In.
  apply bool_decide_eq_true_2. by eapply (proj1 (Forall_forall _ _) Hr).
Qed.

Lemma writerows_fitting (fieldnames : list string) rows file :
  Forall (Forall (λ kv : string * string, kv.1 ∈ fieldnames)) rows →
  Report.writerows fieldnames rows file =
  ((file ++ map (λ r, Row (map (λ key, default "" (assoc key r)) fieldnames)) rows)%list,
   Returned ()).
Proof.
  intros Hrows. revert file.
  induction Hrows as [|r rows Hr Hrows IH]; intros file; cbn [Report.writerows map].
  - by rewrite app_nil_r.
  - rewrite dict_to_list_fitting by done. by rewrite IH, <- app_assoc.
Qed.

(** X14.  Dicts whose keys are all among the columns are written in full,
    one line each in input order, a missing column as an empty cell.
    Without [append] the file is replaced by the header and the lines;
    with [append] every dict is first stamped with the one time of the
    call, and the content of an existing file is left as it was and the
    lines follow it, with no header, also when the file was empty.  When
    every line of the old content is ended by a terminator, so is every
    line afterwards; after open text, the first line written continues
    that text instead. *)
Theorem export_csv_writes_rows
    now (results : list (list (string * string))) output_path (append : bool) :
  results ≠ [] →
  let fieldnames :=
    if append then Report.history_fieldnames else Report.plain_fieldnames in
  let start :=
    if append && bool_decide (is_Some output_path) then default [] output_path
    else [Row fieldnames] in
  Forall (Forall (λ kv : string * string, kv.1 ∈ fieldnames)) results →
  ∃ written,
    Report.export_csv now results output_path append =
      (written,
       Some (start ++
             map (λ r, Row (map (λ key, default "" (assoc key r)) fieldnames))
               written)%list,
       Returned ()) ∧
    written = (if append then map (Report.dict_set "timestamp" now) results
               else results) ∧
    (append = true → ∀ r, r ∈ written → assoc "timestamp" r = Some now) ∧
    (terminated start = true →
     terminated
       (start ++
        map (λ r, Row (map (λ key, default "" (assoc key r)) fieldnames))
          written) = true) ∧
    (∀ text lines,
       append = true → output_path = Some (lines ++ [Open text])%list →
       (Report.export_csv now results output_path append).1.2 =
       Some (lines ++ Open text ::
             map (λ r, Row (map (λ key, default "" (assoc key r)) fieldnames))
               written)%list).
Proof.
  intros Hne. cbv zeta. intros Hfit.
  assert (∀ (fieldnames : list string) (start : list line) rows,
            terminated start = true →
            terminated
              (start ++
               map (λ r : list (string * string),
                      Row (map (λ key, default "" (assoc key r)) fieldnames))
                 rows) = true) as Hterminated.
  { intros fieldnames start rows Hstart. rewrite terminated_app, Hstart.
    by induction rows. }
  unfold Report.export_csv. destruct results as [|r0 rs]; [done |].
  remember (r0 :: rs) as results eqn:Hresults. clear Hresults Hne r0 rs.
  destruct append; cbn [andb negb].
  - assert (Forall (Forall (λ kv : string * string, kv.1 ∈ Report.history_fieldnames))
              (map (Report.dict_set "timestamp" now) results)) as Hstamped.
    { apply Forall_forall. intros r (r' & -> & Hr')%list_elem_of_fmap.
      apply dict_set_keys; [by vm_compute; set_solver |].
      by eapply (proj1 (Forall_forall _ _) Hfit). }
    exists (map (Report.dict_set "timestamp" now) results).
    split_and!; [| done | | apply Hterminated |].
    + destruct (bool_decide (is_Some output_path)); cbn [negb];
        by rewrite writerows_fitting.
    + intros _ r (r' & -> & _)%list_elem_of_fmap. apply dict_set_assoc.
    + intros text lines _ ->. rewrite bool_decide_eq_true_2 by eauto.
      cbn [negb]. rewrite writerows_fitting by done.
      change (default [] (Some ?l)) with l. cbn [fst snd].
      by rewrite <- app_assoc.
  - exists results. split_and!; [| done | done | apply Hterminated | done].
    by rewrite writerows_fitting.
Qed.

Lemma export_csv_writes_rows_witness :
  Report.export_csv "2024-01-02T00:00:00"
    [[("benchmark", "compare_get"); ("test", "insert")]] (Some []) true =
  ([[("benchmark", "compare_get"); ("test", "insert");
     ("timestamp", "2024-01-02T00:00:00")]],
   Some [Row ["2024-01-02T00:00:00"; "compare_get"; "insert"; ""; ""; ""; ""; ""; ""]],
   Returned ()).
Proof.
  destruct (export_csv_writes_rows "2024-01-02T00:00:00"
              [[("benchmark", "compare_get"); ("test", "insert")]] (Some []) true)
    as (written & Hdone & -> & _); [done | | exact Hdone].
  repeat constructor; cbn [fst]; unfold Report.history_fieldnames; set_solver.
Defined.

(** ** Sorting *)

Section Sorting.

Context {A : Type} (lt : A → A → bool).

Lemma insert_sorted_perm x l : Report.insert_sorted lt x l ≡ₚ x :: l.
Proof.
  induction l as [|y l IH]; cbn [Report.insert_sorted]; [done |].
  destruct (lt y x); [| done]. rewrite IH. apply Permutation_swap.
Qed.

Lemma sorted_perm l : Report.sorted lt l ≡ₚ l.
Proof.
  induction l as [|x l IH]; [done |].
  cbn [Report.sorted foldr]. fold (Report.sorted lt l).
  by rewrite insert_sorted_perm, IH.
Qed.

(** Rows that a predicate [P] picks keep their order, when no row of [P]
    is smaller than another row of [P]. *)
Lemma insert_sorted_filter (P : A → Prop) `{!∀ x, Decision (P x)} x l :
  (∀ y, lt y x = true → P x → ¬ P y) →
  filter P (Report.insert_sorted lt x l) = filter P (x :: l).
Proof.
  intros Hlt. induction l as [|y l IH]; cbn [Report.insert_sorted]; [done |].
  destruct (lt y x) eqn:Hyx; [| done].
  rewrite (filter_cons _ y), IH, !(filter_cons _ x), (filter_cons _ y).
  destruct (decide (P x)) as [Hx|Hx]; [| done].
  destruct (decide (P y)) as [Hy|Hy]; [by destruct (Hlt y Hyx Hx) | done].
Qed.

Lemma sorted_filter (P : A → Prop) `{!∀ x, Decision (P x)} l :
  (∀ x y, lt y x = true → P x → ¬ P y) →
  filter P (Report.sorted lt l) = filter P l.
Proof.
  intros Hlt. induction l as [|x l IH]; [done |].
  cbn [Report.sorted foldr]. fold (Report.sorted lt l).
  rewrite insert_sorted_filter by apply Hlt.
  by rewrite !(filter_cons _ x), IH.
Qed.

Hypothesis asym : ∀ a b, lt a b = true → lt b a = false.

Lemma insert_sorted_HdRel y x l :
  lt y x = true →
  HdRel (λ a b, lt b a = false) y l →
  HdRel (λ a b, lt b a = false) y (Report.insert_sorted lt x l).
Proof.
  intros Hyx. destruct 1 as [|z l Hz]; cbn [Report.insert_sorted].
  - constructor. by apply asym.
  - destruct (lt z x); constructor; [done | by apply asym].
Qed.

Lemma insert_sorted_Sorted x l :
  Sorted (λ a b, lt b a = false) l →
  Sorted (λ a b, lt b a = false) (Report.insert_sorted lt x l).
Proof.
  induction 1 as [|y l Hl IH Hy]; cbn [Report.insert_sorted].
  - by repeat constructor.
  - destruct (lt y x) eqn:Hyx.
    + constructor; [done | by apply insert_sorted_HdRel].
    + by repeat constructor.
Qed.

Lemma sorted_Sorted l : Sorted (λ a b, lt b a = false) (Report.sorted lt l).
Proof.
  induction l as [|x l IH]; [constructor |].
  cbn [Report.sorted foldr]. by apply insert_sorted_Sorted.
Qed.

End Sorting.

Lemma str_lt_irrefl a : Report.str_lt a a = false.
Proof.
  unfold Report.str_lt. by destruct (String.leb_total a a) as [-> | ->].
Qed.

Lemma str_lt_asym a b : Report.str_lt a b = true → Report.str_lt b a = false.
Proof.
  unfold Report.str_lt. intros H%negb_true_iff.
  destruct (String.leb_total a b) as [Hab | Hba]; [by rewrite Hab | congruence].
Qed.

Lemma row_lt_asym a b : Report.row_lt a b = true → Report.row_lt b a = false.
Proof.
  unfold Report.row_lt.
  destruct (String.eqb_spec (Entry.operation a) (Entry.operation b)) as [-> | Hne].
  - rewrite String.eqb_refl, str_lt_irrefl. cbn [orb andb].
    apply str_lt_asym.
  - rewrite (proj2 (String.eqb_neq _ _)) by done.
    rewrite !andb_false_l, !orb_false_r. apply str_lt_asym.
Qed.

Lemma row_lt_same_key a b :
  Report.row_lt a b = true →
  ¬ (Entry.operation a = Entry.operation b ∧ Entry.size a = Entry.size b).
Proof.
  unfold Report.row_lt. intros H [Hop Hsize]. revert H.
  by rewrite Hop, Hsize, !str_lt_irrefl, andb_false_r.
Qed.

Lemma group_lt_asym a b : Report.group_lt a b = true → Report.group_lt b a = false.
Proof. apply str_lt_asym. Qed.

(** ** Grouping by benchmark *)

Lemma group_append_keys key r groups :
  map fst (Report.group_append key r groups) =
  if bool_decide (key ∈ map fst groups) then map fst groups
  else (map fst groups ++ [key])%list.
Proof.
  induction groups as [|[k l] groups IH]; cbn [Report.group_append map fst app].
  - by rewrite bool_decide_eq_false_2 by by intros ?%elem_of_nil.
  - destruct (String.eqb_spec k key) as [-> | Hne]; cbn [map fst].
    + by rewrite bool_decide_eq_true_2 by left.
    + rewrite IH. case_bool_decide as Hin.
      * by rewrite bool_decide_eq_true_2 by by right.
      * rewrite bool_decide_eq_false_2; [done |].
        by intros [-> | ?]%elem_of_cons.
Qed.

Lemma group_append_assoc key r groups k :
  assoc k (Report.group_append key r groups) =
  if String.eqb k key then Some (default [] (assoc key groups) ++ [r])%list
  else assoc k groups.
Proof.
  induction groups as [|[k' l] groups IH]; cbn [Report.group_append assoc].
  - rewrite String.eqb_sym. by destruct (String.eqb k key).
  - destruct (String.eqb_spec k' key) as [-> | Hne]; cbn [assoc].
    + rewrite String.eqb_sym. by destruct (String.eqb k key).
    + rewrite IH. destruct (String.eqb_spec k' k) as [-> | Hne'].
      * by rewrite (proj2 (String.eqb_neq _ _)) by done.
      * done.
Qed.

Lemma assoc_elem_of {A} (groups : list (string * A)) k l :
  NoDup (map fst groups) → (k, l) ∈ groups ↔ assoc k groups = Some l.
Proof.
  induction groups as [|[k' l'] groups IH]; cbn [map fst assoc].
  - intros _. split; [by intros ?%elem_of_nil | done].
  - intros [Hk' Hgroups]%NoDup_cons. rewrite elem_of_cons, (IH Hgroups).
    destruct (String.eqb_spec k' k) as [-> | Hne].
    + split; [| intros [= ->]; by left].
      intros [Heq | Hin]; [by simplify_eq |]. destruct Hk'.
      apply IH in Hin; [| done]. apply list_elem_of_fmap. by exists (k, l).
    + split; [| by right]. intros [Heq | ?]; [by simplify_eq | done].
Qed.

Lemma assoc_keys {A} (groups : list (string * A)) k :
  k ∈ map fst groups ↔ is_Some (assoc k groups).
Proof.
  induction groups as [|[k' l'] groups IH]; cbn [map fst assoc].
  - split; [by intros ?%elem_of_nil | by intros [? ?]].
  - rewrite elem_of_cons, IH. destruct (String.eqb_spec k' k) as [-> | Hne].
    + split; [by eexists | by left].
    + split; [by intros [-> | ?] | by right].
Qed.

Lemma by_benchmark_snoc results r :
  Report.by_benchmark (results ++ [r]) =
  Report.group_append (Entry.benchmark r) r (Report.by_benchmark results).
Proof. unfold Report.by_benchmark. by rewrite fold_left_app. Qed.

Lemma by_benchmark_keys results : NoDup (map fst (Report.by_benchmark results)).
Proof.
  induction results as [|r results IH] using rev_ind; [constructor |].
  rewrite by_benchmark_snoc, group_append_keys. case_bool_decide as Hin; [done |].
  apply NoDup_app. split_and!; [done | | apply NoDup_singleton].
  by intros k Hk ->%list_elem_of_singleton.
Qed.

(** Each group is the records of its benchmark, in input order. *)
Lemma by_benchmark_assoc results k :
  assoc k (Report.by_benchmark results) =
  match filter (λ r, Entry.benchmark r = k) results with
  | [] => None
  | l => Some l
  end.
Proof.
  induction results as [|r results IH] using rev_ind; [done |].
  rewrite by_benchmark_snoc, group_append_assoc, filter_app.
  destruct (String.eqb_spec k (Entry.benchmark r)) as [-> | Hne].
  - rewrite IH, filter_cons_True, filter_nil by done.
    by destruct (filter _ results).
  - rewrite IH, filter_cons_False, filter_nil, app_nil_r by done. done.
Qed.

Lemma by_benchmark_elem results k l :
  (k, l) ∈ Report.by_benchmark results ↔
  l = filter (λ r, Entry.benchmark r = k) results ∧ l ≠ [].
Proof.
  rewrite assoc_elem_of, by_benchmark_assoc by apply by_benchmark_keys.
  destruct (filter _ results) as [|r rs]; [naive_solver |].
  split; [by intros [= <-] | by intros [-> _]].
Qed.

Lemma sections_elem results name rows :
  (name, rows) ∈ Report.sections results ↔
  ∃ l, (name, l) ∈ Report.by_benchmark results ∧ rows = Report.sorted Report.row_lt l.
Proof.
  unfold Report.sections. rewrite list_elem_of_fmap. split.
  - intros ([k l] & [= -> ->] & Hin). exists l. split; [| done].
    by rewrite sorted_perm in Hin.
  - intros (l & Hin & ->). exists (name, l). split; [done |].
    by rewrite sorted_perm.
Qed.

Lemma sections_names results :
  map fst (Report.sections results) =
  map fst (Report.sorted Report.group_lt (Report.by_benchmark results)).
Proof. unfold Report.sections. rewrite map_map. done. Qed.

Lemma Sorted_names (groups : list (string * list Entry.t)) :
  Sorted (λ a b, Report.group_lt b a = false) groups →
  NoDup (map fst groups) →
  Sorted (λ a b, Report.str_lt a b = true) (map fst groups).
Proof.
  induction 1 as [|g groups Hgroups IH Hg]; cbn [map]; [constructor |].
  intros [Hnew Hrest]%NoDup_cons. constructor; [by apply IH |].
  destruct Hg as [|g' groups Hg']; cbn [map]; constructor.
  unfold Report.group_lt, Report.str_lt in *.
  apply negb_false_iff in Hg'. apply negb_true_iff.
  destruct (String.leb g'.1 g.1) eqn:Hle; [| done].
  destruct Hnew. rewrite (String.leb_antisym _ _ Hg' Hle). cbn [map]. by left.
Qed.

(** How [sections] arranges the records. *)
Lemma sections_arrange results :
  let sections := Report.sections results in
  NoDup (map fst sections) ∧
  Sorted (λ a b, Report.str_lt a b = true) (map fst sections) ∧
  (∀ r, r ∈ results → Entry.benchmark r ∈ map fst sections) ∧
  (∀ name rows,
     (name, rows) ∈ sections →
     rows ≠ [] ∧
     rows ≡ₚ filter (λ r, Entry.benchmark r = name) results ∧
     Sorted (λ a b, Report.row_lt b a = false) rows ∧
     ∀ operation size,
       filter (λ r, Entry.operation r = operation ∧ Entry.size r = size) rows =
       filter (λ r, Entry.operation r = operation ∧ Entry.size r = size)
         (filter (λ r, Entry.benchmark r = name) results)).
Proof.
  cbv zeta.
  assert (NoDup (map fst (Report.sections results))) as Hnames.
  { rewrite sections_names, sorted_perm. apply by_benchmark_keys. }
  split_and!; [done | | |].
  - rewrite sections_names. apply Sorted_names.
    + apply sorted_Sorted, group_lt_asym.
    + by rewrite <- sections_names.
  - intros r Hr. rewrite sections_names, sorted_perm.
    apply assoc_keys. rewrite by_benchmark_assoc.
    destruct (filter _ results) as [|r' l] eqn:Hfilter; [| by eexists].
    assert (r ∈ filter (λ r0, Entry.benchmark r0 = Entry.benchmark r) results) as Hin
      by by apply list_elem_of_filter.
    rewrite Hfilter in Hin. by apply elem_of_nil in Hin.
  - intros name rows (l & [-> Hne]%by_benchmark_elem & ->)%sections_elem.
    split_and!.
    + intros Hnil. apply Hne, Permutation_nil_r. by rewrite <- Hnil, sorted_perm.
    + apply sorted_perm.
    + apply sorted_Sorted, row_lt_asym.
    + intros operation size. apply sorted_filter.
      intros x y Hlt [<- <-] [Hop Hsize]. by apply (row_lt_same_key y x).
Qed.

Lemma mapM_Forall2 {A B} (f : A → outcome B) (l : list A) ys :
  mapM f l = Returned ys → Forall2 (λ x y, f x = Returned y) l ys.
Proof.
  revert ys. induction l as [|x l IH]; intros ys.
  - intros [= <-]. constructor.
  - cbn [mapM]. fold (mapM f l).
    intros (y & Hy & H)%bind_returned.
    apply bind_returned in H as (ys' & Hys' & [= <-]).
    constructor; [done | by apply IH].
Qed.

(** X15.  The text [generate_markdown_table] returns is the title followed
    by one block per section, each block three heading lines, the first
    naming the benchmark, and then one line per record of the section, the
    one [row_text] gives it.  There is one section per benchmark, the
    sections in strictly increasing order of name.  A section holds the
    records of its benchmark and no others, each once, in non-decreasing
    order of (operation, size) compared as text; records with the same
    operation and size stay in the order they came in. *)
Theorem markdown_sections_arrange_records results text :
  results ≠ [] →
  Report.generate_markdown_table results = Returned text →
  ∃ (sections : list (string * list Entry.t)) (blocks : list (list string)),
    text = Report.join Report.newline
             (("# Benchmark Results" +:+ Report.newline) :: concat blocks) ∧
    Forall2
      (λ (section : string * list Entry.t) (block : list string),
         ∃ rows,
           Forall2 (λ r row, Report.row_text r = Returned row) section.2 rows ∧
           block =
             ([ Report.newline +:+ "## " +:+ section.1 +:+ Report.newline;
                "| Operation | Size | Median Time | Throughput |";
                "|-----------|------|-------------|------------|" ] ++ rows)%list)
      sections blocks ∧
    NoDup (map fst sections) ∧
    Sorted (λ a b, Report.str_lt a b = true) (map fst sections) ∧
    (∀ r, r ∈ results → Entry.benchmark r ∈ map fst sections) ∧
    (∀ name rows,
       (name, rows) ∈ sections →
       rows ≠ [] ∧
       rows ≡ₚ filter (λ r, Entry.benchmark r = name) results ∧
       Sorted (λ a b, Report.row_lt b a = false) rows ∧
       ∀ operation size,
         filter (λ r, Entry.operation r = operation ∧ Entry.size r = size) rows =
         filter (λ r, Entry.operation r = operation ∧ Entry.size r = size)
           (filter (λ r, Entry.benchmark r = name) results)).
Proof.
  intros Hne. unfold Report.generate_markdown_table.
  destruct results as [|r0 rs]; [done |].
  remember (r0 :: rs) as results eqn:Hresults. clear Hresults Hne r0 rs.
  intros (lines & Hlines & [= <-])%bind_returned.
  unfold Report.markdown_lines in Hlines.
  apply bind_returned in Hlines as (blocks & Hblocks & [= <-]).
  exists (Report.sections results), blocks.
  split; [done |]. split; [| apply sections_arrange].
  apply mapM_Forall2 in Hblocks.
  eapply Forall2_impl; [exact Hblocks |].
  intros section block (rows & Hrows & [= <-])%bind_returned.
  exists rows. split; [by apply mapM_Forall2 | done].
Qed.

Lemma markdown_sections_arrange_records_witness :
  let results :=
    [ entry "set" "insert" 500; entry "get" "lookup" 250;
      entry "get" "insert" 2500000 ] in
  Report.generate_markdown_table results = Returned sample_table ∧
  ∃ (sections : list (string * list Entry.t)) (blocks : list (list string)),
    sample_table =
      Report.join Report.newline
        (("# Benchmark Results" +:+ Report.newline) :: concat blocks) ∧
    length sections = length blocks ∧
    Sorted (λ a b, Report.str_lt a b = true) (map fst sections) ∧
    (∀ r, r ∈ results → Entry.benchmark r ∈ map fst sections).
Proof.
  intros results.
  assert (Report.generate_markdown_table results = Returned sample_table) as Htext
    by (vm_compute; reflexivity).
  split; [exact Htext |].
  destruct (markdown_sections_arrange_records results sample_table
              ltac:(done) Htext)
    as (sections & blocks & Hjoin & Hblocks & _ & Hsorted & Hall & _).
  exists sections, blocks.
  split; [exact Hjoin |]. split; [exact (Forall2_length _ _ _ Hblocks) |].
  split; [exact Hsorted | exact Hall].
Defined.

(** ** Rendering *)

Lemma mapM_returns {A B} (f : A → outcome B) (l : list A) :
  (∀ x, x ∈ l → ∃ y, f x = Returned y) →
  ∃ ys, mapM f l = Returned ys ∧ length ys = length l.
Proof.
  induction l as [|x l IH]; intros Hall; [by exists [] |].
  destruct (Hall x) as [y Hy]; [by left |].
  destruct IH as (ys & Hys & Hlen); [intros ? ?; apply Hall; by right |].
  exists (y :: ys). cbn [mapM]. rewrite Hy. cbn [mbind outcome_bind].
  fold (mapM f l). rewrite Hys. cbn [length]. by rewrite Hlen.
Qed.

Lemma div_int_float f d y :
  float_of_int d = Returned y → PrimFloat.eqb y 0 = false →
  Report.div_int (PFloat f) d = Returned (f / y)%float.
Proof. intros Hy Hz. cbn [Report.div_int]. rewrite Hy. simpl. by rewrite Hz. Qed.

Lemma format_time_float f :
  ∃ v unit, Report.format_time (PFloat f) = Returned (PFloat v, unit).
Proof.
  unfold Report.format_time.
  rewrite (div_int_float f 1000 1000), (div_int_float f 1000000 1000000),
    (div_int_float f 1000000000 1000000000) by (vm_compute; reflexivity).
  repeat case_match; simpl; eauto.
Qed.

Lemma format_throughput_float_one f :
  ∃ text, ParseBenchResults.format_throughput (PFloat f) 1 = Returned text.
Proof.
  unfold ParseBenchResults.format_throughput.
  destruct (eq_zero (PFloat f)) eqn:Hz; [eauto |].
  cbn [truediv].
  change (float_of_int (1 * 1000000000)) with (Returned 1000000000%float).
  cbn [mbind outcome_bind]. cbn [eq_zero] in Hz. rewrite Hz.
  cbn [mbind outcome_bind]. repeat case_match; eauto.
Qed.

Lemma row_text_float r f :
  Entry.median_ns r = JNumber (PFloat f) →
  isdigit (Entry.size r) = false →
  ∃ text, Report.row_text r = Returned text.
Proof.
  intros Hmedian Hsize. unfold Report.row_text.
  rewrite Hmedian, size_n_unfold, Hsize. cbn [andb as_number mbind outcome_bind].
  destruct (format_time_float f) as (v & unit & ->).
  destruct (format_throughput_float_one f) as (text & ->).
  cbn [mbind outcome_bind Report.format_number_2f]. eauto.
Qed.

(** X16.  The table is rendered, with no exception, for every list of
    records whose medians are floats and whose sizes are not numerals, as
    the entries of the discoverer are when the estimates hold floats: no
    float, be it zero, negative, infinite or not a number, makes a row
    fail.  The text is the joined lines: a title, then per section three
    heading lines and its rows. *)
Theorem markdown_renders_float_medians results :
  (∀ r, r ∈ results →
        (∃ f, Entry.median_ns r = JNumber (PFloat f)) ∧
        isdigit (Entry.size r) = false) →
  ∃ text, Report.generate_markdown_table results = Returned text.
Proof.
  intros Hall. unfold Report.generate_markdown_table.
  destruct results as [|r0 rs]; [eauto |].
  remember (r0 :: rs) as results eqn:Hresults. clear Hresults r0 rs.
  unfold Report.markdown_lines.
  destruct (mapM_returns Report.section_lines (Report.sections results))
    as (blocks & -> & _); [| cbn [mbind outcome_bind]; eauto].
  intros [name rows] Hsection. unfold Report.section_lines. cbn [snd fst].
  destruct (mapM_returns Report.row_text rows) as (texts & -> & _);
    [| cbn [mbind outcome_bind]; eauto].
  intros r Hr. apply sections_elem in Hsection as (l & [-> _]%by_benchmark_elem & ->).
  rewrite sorted_perm in Hr. apply list_elem_of_filter in Hr as [_ Hr].
  destruct (Hall r Hr) as [[f Hf] Hsize]. by apply (row_text_float r f).
Qed.

Lemma markdown_renders_float_medians_witness :
  ∃ text,
    Report.generate_markdown_table
      [ {| Entry.benchmark := "compare_get"; Entry.test := "insert";
           Entry.operation := "insert"; Entry.size := "N/A";
           Entry.median_ns := JNumber (PFloat 1500);
           Entry.mean_ns := JNumber (PFloat 1520);
           Entry.median_us := 1500 / 1000; Entry.median_ms := 1500 / 1000000;
           Entry.timestamp := "2024-01-01T12:00:00"; Entry.source := "base" |} ]
    = Returned text.
Proof.
  apply markdown_renders_float_medians.
  intros r ->%list_elem_of_singleton. split; [by exists 1500%float | reflexivity].
Defined.
